(** * Stardog language servers: completion, diagnostics and dialect dispatch

    A shallow embedding of [SmsLanguageServer] (completion engine and
    content-change handler) and of [TrigLanguageServer] (dialect mode,
    content-change handler, mode-aware [parseDocument]).

    Conventions of the embedding:
    - offsets and indices are JavaScript integers, modelled in [Z];
    - [undefined] is [None]; a handler that falls off its end or executes a
      bare [return] yields [Returned None];
    - an uncaught JavaScript exception is the outcome [Threw];
    - every call that crosses the boundary of the server class (parser,
      connection, inherited diagnostics passes) is recorded, in order, in the
      server's [log]. *)

From stdpp Require Import gmap strings list sorting.
From Stdlib Require Import ZArith Lia.

Local Open Scope string_scope.
Local Open Scope list_scope.
Local Open Scope Z_scope.
Local Set Warnings "-register-all".

(** ** Values coming from the libraries the servers are written against *)

(** chevrotain's [TokenType] and [IToken]; [endOffset] is whatever the lexer
    put there, the servers only compare it. *)
Record TokenType := { tokenName : string }.

Record IToken := {
  tokenType : TokenType;
  startOffset : Z;
  endOffset : Z;
  image : string;
}.

(** chevrotain's CST: a rule node with children, or a token leaf. *)
Inductive CstNode :=
| CstLeaf (tok : IToken)
| CstRule (name : string) (children : list CstNode).

(** A recognition exception (lexical or syntactic error object). *)
Record RecognitionException := {
  exn_message : string;
  exn_token : IToken;
}.

(** One path returned by [computeContentAssist]. *)
Record ContentAssistPath := {
  nextTokenType : TokenType;
  ruleStack : list string;
}.

(** A JavaScript value, as far as [initializationOptions] is inspected. *)
Inductive JsValue :=
| JsUndefined
| JsNull
| JsBoolean (b : bool)
| JsNumber (n : Z)
| JsString (s : string)
| JsObject (props : list (string * JsValue)).

(** Truthiness, as tested by [a && b] and [if (a)]. *)
Definition truthy (v : JsValue) : bool :=
  match v with
  | JsUndefined | JsNull => false
  | JsBoolean b => b
  | JsNumber n => negb (n =? 0)
  | JsString s => negb (String.eqb s "")
  | JsObject _ => true
  end.

Fixpoint assoc (k : string) (props : list (string * JsValue)) : JsValue :=
  match props with
  | [] => JsUndefined
  | (k', v) :: rest => if String.eqb k k' then v else assoc k rest
  end.

(** Property read [v.k] on a value that is neither [undefined] nor [null]:
    an own property of an object, [undefined] on a primitive. *)
Definition getProp (v : JsValue) (k : string) : JsValue :=
  match v with
  | JsObject props => assoc k props
  | _ => JsUndefined
  end.

(** Strict equality with a string literal: [v === lit]. *)
Definition strictEqString (v : JsValue) (lit : string) : bool :=
  match v with
  | JsString s => String.eqb s lit
  | _ => false
  end.

(** The double quote character, as a one-character string. *)
Definition dquote : string := String (Ascii.ascii_of_nat 34) EmptyString.

(** The [vscode-languageserver] protocol types used by the servers. *)
Module lsp.

Record Position := { line : Z; character : Z }.

Record Range := { start : Position; end_ : Position }.

Record TextEdit := { range : Range; newText : string }.

(** [Range.create(start, end)] *)
Definition Range_create (s e : Position) : Range :=
  {| start := s; end_ := e |}.

(** [TextEdit.replace(range, newText)] *)
Definition TextEdit_replace (r : Range) (t : string) : TextEdit :=
  {| range := r; newText := t |}.

Inductive CompletionItemKind := Enum.
Inductive InsertTextFormat := PlainText | Snippet.

Record CompletionItem := {
  label : string;
  kind : CompletionItemKind;
  detail : string;
  documentation : string;
  insertTextFormat : InsertTextFormat;
  textEdit : TextEdit;
}.

Record Diagnostic := {
  diag_range : Range;
  severity : Z;
  message : string;
}.

(** A text document: its URI, its text, and its two coordinate
    conversions, which belong to the library. *)
Record TextDocument := {
  uri : string;
  getText : string;
  offsetAt : Position -> Z;
  positionAt : Z -> Position;
}.

Record TextDocumentPositionParams := {
  textDocument_uri : string;
  position : Position;
}.

Record InitializeParams := { initializationOptions : JsValue }.

Record ServerCapabilities := {
  textDocumentSync : JsValue;
  hoverProvider : bool;
  foldingRangeProvider : bool;
  completionProvider : option (list string);
}.

Record InitializeResult := { capabilities : ServerCapabilities }.

End lsp.

(** ** Effects *)

Inductive JsError := TypeError (what : string).

Inductive Outcome (A : Type) :=
| Returned (a : A)
| Threw (e : JsError).
Arguments Returned {A} a.
Arguments Threw {A} e.

(** Calls that leave the server class, in the order they are made. *)
Inductive Event :=
| ParserParse (content : string) (mode : option string)
| ParserComputeContentAssist (rule : string) (prefix : list IToken)
| GetLexDiagnostics (uri : string) (toks : list IToken)
| GetParseDiagnostics (uri : string) (errs : list RecognitionException)
| ConnectionSendDiagnostics (uri : string) (diagnostics : list lsp.Diagnostic)
| ConnectionOnCompletion
| ConnectionOnFoldingRanges.

Definition isParse (e : Event) : bool :=
  match e with ParserParse _ _ => true | _ => false end.

Definition isSendDiagnostics (e : Event) : bool :=
  match e with ConnectionSendDiagnostics _ _ => true | _ => false end.

Definition isDiagnosticsPass (e : Event) : bool :=
  match e with
  | GetLexDiagnostics _ _ | GetParseDiagnostics _ _ => true
  | _ => false
  end.

(** Number of events of a log that satisfy [p]. *)
Definition count (p : Event -> bool) (l : list Event) : nat :=
  length (List.filter p l).

(** ** What the servers inherit from [AbstractLanguageServer] *)

(** What a call of the parser's [parse] leaves behind: the returned object
    ([cst], [errors] and the remaining properties) and the token vector then
    readable as [parser.input]. *)
Record ParseOutput := {
  out_cst : CstNode;
  out_errors : list RecognitionException;
  out_other : list (string * JsValue);
  out_input : list IToken;
}.

(** The object returned by [parseDocument]. *)
Record ParseResults := {
  res_cst : CstNode;
  res_tokens : list IToken;
  res_errors : list RecognitionException;
  res_otherParseData : list (string * JsValue);
}.

(** A possibly partial [{cst, tokens}] object. *)
Record ParseState := {
  cst : option CstNode;
  tokens : option (list IToken);
}.

(** The two diagnostics passes, inherited and opaque here. *)
Record DiagnosticsTranslator := {
  lexDiagnostics : lsp.TextDocument -> list IToken -> list lsp.Diagnostic;
  parseDiagnostics :
    lsp.TextDocument -> list RecognitionException -> list lsp.Diagnostic;
}.

(** Modelled from the spec: the parse state manager of
    [stardog-language-utils] is missing; section 4.1 gives it as a per-URI
    store with [get(uri) -> ParseState | absent] and an overwriting [put].
    The completion handler destructures the result of the lookup, so an
    absent entry reads as an object without properties. *)
Definition getParseStateForUri (store : gmap string ParseState) (uri : string)
  : ParseState :=
  default {| cst := None; tokens := None |} (store !! uri).

(** Modelled from the spec: [put(uri, ParseState)] of section 4.1, which
    overwrites the entry of the missing parse state manager. *)
Definition saveParseStateForUri (store : gmap string ParseState)
    (uri : string) (st : ParseState) : gmap string ParseState :=
  <[uri := st]> store.

(** ** JavaScript arrays *)

(** [a[i]] for an integer [i]: [undefined] outside the array. *)
Definition js_index {A} (a : list A) (i : Z) : option A :=
  if i <? 0 then None else a !! Z.to_nat i.

(** [a.slice(0, e)] for [0 <= e]. *)
Definition js_slice0 {A} (a : list A) (e : Z) : list A :=
  take (Z.to_nat e) a.

(** ** The completion engine's arithmetic (SmsLanguageServer.handleCompletion) *)

(** The backward loop
    [for (index = tokens.length - 1; index > -1; index--)], with [n] the
    number of indices not yet visited ([index = n - 1]); the result is the
    final value of [tokenIndexBeforeCursor]. The [None] branch stands for an
    index outside the array, which the loop bounds exclude. *)
Fixpoint scanBackward (toks : list IToken) (cursorOffset : Z) (n : nat) : Z :=
  match n with
  | O => -1
  | S index =>
      match toks !! index with
      | Some token =>
          if endOffset token + 1 <? cursorOffset
          then Z.of_nat index
          else scanBackward toks cursorOffset index
      | None => scanBackward toks cursorOffset index
      end
  end.

Definition tokenIndexBeforeCursor (toks : list IToken) (cursorOffset : Z) : Z :=
  scanBackward toks cursorOffset (length toks).

Definition tokenAfterTokenBeforeCursor (toks : list IToken) (cursorOffset : Z)
  : option IToken :=
  js_index toks (tokenIndexBeforeCursor toks cursorOffset + 1).

Definition isCursorInToken (toks : list IToken) (cursorOffset : Z) : bool :=
  match tokenAfterTokenBeforeCursor toks cursorOffset with
  | None => false
  | Some u =>
      (startOffset u <=? cursorOffset)
      && (endOffset u >=? cursorOffset)
      && negb (startOffset u =? endOffset u)
  end.

(** The prefix handed to the content-assist query. *)
Definition assistPrefix (toks : list IToken) (cursorOffset : Z) : list IToken :=
  let i := tokenIndexBeforeCursor toks cursorOffset in
  if i =? -1 then [] else js_slice0 toks (i + 1).

(** ** SmsLanguageServer *)

Module Sms.

(** [SmsParser], as the server uses it. *)
Record SmsParser := {
  parse : string -> ParseOutput;
  computeContentAssist : string -> list IToken -> list ContentAssistPath;
}.

(** The server object: its immutable collaborators, the open documents,
    the parse state store, and the log of outgoing calls.
    [basicSMS2Mapping] is the snippet text [sms2Snippets.basicSMS2Mapping]
    and [syncKind0] the value of [this.documents.syncKind[0]]; both come
    from outside the class and are left open. *)
Record Server := {
  parser : SmsParser;
  translator : DiagnosticsTranslator;
  basicSMS2Mapping : string;
  syncKind0 : JsValue;
  documents : gmap string lsp.TextDocument;
  parseStates : gmap string ParseState;
  log : list Event;
}.

Definition emit (e : Event) (s : Server) : Server :=
  {| parser := parser s; translator := translator s;
     basicSMS2Mapping := basicSMS2Mapping s; syncKind0 := syncKind0 s;
     documents := documents s; parseStates := parseStates s;
     log := log s ++ [e] |}.

Definition setParseStates (m : gmap string ParseState) (s : Server) : Server :=
  {| parser := parser s; translator := translator s;
     basicSMS2Mapping := basicSMS2Mapping s; syncKind0 := syncKind0 s;
     documents := documents s; parseStates := m;
     log := log s |}.

Definition onInitialization (_params : lsp.InitializeParams) (s : Server)
  : lsp.InitializeResult * Server :=
  let s := emit ConnectionOnCompletion s in
  let s := emit ConnectionOnFoldingRanges s in
  ({| lsp.capabilities :=
        {| lsp.textDocumentSync := syncKind0 s;
           lsp.hoverProvider := true;
           lsp.foldingRangeProvider := true;
           lsp.completionProvider := Some ["<"; ":"; "?"; "$"] |} |}, s).

(** Modelled from the spec: the inherited [parseDocument] is missing; by
    sections 4.4 and 6 it parses the document text and reads the token
    stream from the parser's accessor right after, as the override in
    [TrigLanguageServer] does, without a mode. *)
Definition parseDocument (document : lsp.TextDocument) (s : Server)
  : ParseResults * Server :=
  let content := lsp.getText document in
  let s := emit (ParserParse content None) s in
  let out := parse (parser s) content in
  ({| res_cst := out_cst out; res_tokens := out_input out;
      res_errors := out_errors out;
      res_otherParseData := out_other out |}, s).

Definition getLexDiagnostics (document : lsp.TextDocument)
    (toks : list IToken) (s : Server) : list lsp.Diagnostic * Server :=
  (lexDiagnostics (translator s) document toks,
   emit (GetLexDiagnostics (lsp.uri document) toks) s).

Definition getParseDiagnostics (document : lsp.TextDocument)
    (errs : list RecognitionException) (s : Server)
  : list lsp.Diagnostic * Server :=
  (parseDiagnostics (translator s) document errs,
   emit (GetParseDiagnostics (lsp.uri document) errs) s).

Definition onContentChange (document : lsp.TextDocument)
    (parseResults : ParseResults) (s : Server) : Server :=
  let uri := lsp.uri document in
  let content := lsp.getText document in
  let errors := res_errors parseResults in
  let toks := res_tokens parseResults in
  if (String.length content =? 0)%nat then
    emit (ConnectionSendDiagnostics uri []) s
  else
    let '(lexDiags, s) := getLexDiagnostics document toks s in
    let '(parseDiags, s) := getParseDiagnostics document errors s in
    emit (ConnectionSendDiagnostics uri (lexDiags ++ parseDiags)) s.

(** The single completion item of the server. *)
Definition snippetItem (document : lsp.TextDocument) (cursorOffset : Z)
    (snippet : string) : lsp.CompletionItem :=
  {| lsp.label := "basicSMS2Mapping";
     lsp.kind := lsp.Enum;
     lsp.detail := "Create a basic fill-in-the-blanks SMS2 mapping";
     lsp.documentation :=
       "Inserts a basic mapping in Stardog Mapping Syntax 2 (SMS2) with tabbing functionality and content assistance. For more documentation of SMS2, check out "
       +:+ dquote +:+ "Help" +:+ dquote +:+ " --> "
       +:+ dquote +:+ "Stardog Docs" +:+ dquote +:+ ".";
     lsp.insertTextFormat := lsp.Snippet;
     lsp.textEdit :=
       lsp.TextEdit_replace
         (lsp.Range_create
            (lsp.positionAt document (cursorOffset - 1))
            (lsp.positionAt document (cursorOffset - 1)))
         snippet |}.

Definition isMapping (completion : ContentAssistPath) : bool :=
  String.eqb (tokenName (nextTokenType completion)) "Mapping".

(** Lines 76-82: the tokens of the cached state, or a parse that is then
    saved. *)
Definition tokensFor (uri : string) (document : lsp.TextDocument)
    (s : Server) : list IToken * Server :=
  match tokens (getParseStateForUri (parseStates s) uri) with
  | Some toks => (toks, s)
  | None =>
      let '(r, s) := parseDocument document s in
      let toks := res_tokens r in
      (toks,
       setParseStates
         (saveParseStateForUri (parseStates s) uri
            {| cst := Some (res_cst r); tokens := Some toks |}) s)
  end.

(** Lines 84-137: everything after the tokens are known. *)
Definition completeAt (document : lsp.TextDocument) (cursorOffset : Z)
    (toks : list IToken) (s : Server)
  : Outcome (option (list lsp.CompletionItem)) * Server :=
  if isCursorInToken toks cursorOffset then (Returned None, s)
  else
    let prefix := assistPrefix toks cursorOffset in
    let s := emit (ParserComputeContentAssist "MappingDoc" prefix) s in
    let completions := computeContentAssist (parser s) "MappingDoc" prefix in
    if existsb isMapping completions
    then (Returned
            (Some [snippetItem document cursorOffset (basicSMS2Mapping s)]),
          s)
    else (Returned None, s).

Definition handleCompletion (params : lsp.TextDocumentPositionParams)
    (s : Server) : Outcome (option (list lsp.CompletionItem)) * Server :=
  let uri := lsp.textDocument_uri params in
  match documents s !! uri with
  | None =>
      (* [document] is [undefined]: [document.offsetAt] throws *)
      (Threw (TypeError "Cannot read property 'offsetAt' of undefined"), s)
  | Some document =>
      let cursorOffset := lsp.offsetAt document (lsp.position params) in
      let '(toks, s) := tokensFor uri document s in
      completeAt document cursorOffset toks s
  end.

End Sms.

(** ** TrigLanguageServer *)

Module Trig.

(** [TrigParser], as the server uses it: [parse(content, mode)]. *)
Record TrigParser := {
  parse : string -> string -> ParseOutput;
}.

Record Server := {
  parser : TrigParser;
  translator : DiagnosticsTranslator;
  syncKind0 : JsValue;
  mode : string;
  log : list Event;
}.

(** [new TrigLanguageServer(connection)]: the field initialiser sets the
    mode to ['standard']. *)
Definition create (p : TrigParser) (t : DiagnosticsTranslator)
    (k : JsValue) : Server :=
  {| parser := p; translator := t; syncKind0 := k;
     mode := "standard"; log := [] |}.

Definition emit (e : Event) (s : Server) : Server :=
  {| parser := parser s; translator := translator s;
     syncKind0 := syncKind0 s; mode := mode s; log := log s ++ [e] |}.

Definition setMode (m : string) (s : Server) : Server :=
  {| parser := parser s; translator := translator s;
     syncKind0 := syncKind0 s; mode := m; log := log s |}.

(** The guard of [onInitialization]; [Some m] when the assignment
    [this.mode = params.initializationOptions.mode] is executed. *)
Definition acceptedMode (params : lsp.InitializeParams) : option string :=
  let opts := lsp.initializationOptions params in
  if truthy opts
     && (strictEqString (getProp opts "mode") "stardog"
         || strictEqString (getProp opts "mode") "standard")
  then
    match getProp opts "mode" with
    | JsString m => Some m
    | _ => None
    end
  else None.

Definition onInitialization (params : lsp.InitializeParams) (s : Server)
  : lsp.InitializeResult * Server :=
  let s := match acceptedMode params with
           | Some m => setMode m s
           | None => s
           end in
  ({| lsp.capabilities :=
        {| lsp.textDocumentSync := syncKind0 s;
           lsp.hoverProvider := true;
           lsp.foldingRangeProvider := false;
           lsp.completionProvider := None |} |}, s).

Definition getLexDiagnostics (document : lsp.TextDocument)
    (toks : list IToken) (s : Server) : list lsp.Diagnostic * Server :=
  (lexDiagnostics (translator s) document toks,
   emit (GetLexDiagnostics (lsp.uri document) toks) s).

Definition getParseDiagnostics (document : lsp.TextDocument)
    (errs : list RecognitionException) (s : Server)
  : list lsp.Diagnostic * Server :=
  (parseDiagnostics (translator s) document errs,
   emit (GetParseDiagnostics (lsp.uri document) errs) s).

Definition onContentChange (document : lsp.TextDocument)
    (parseResults : ParseResults) (s : Server) : Server :=
  let uri := lsp.uri document in
  let content := lsp.getText document in
  if (String.length content =? 0)%nat then
    emit (ConnectionSendDiagnostics uri []) s
  else
    let toks := res_tokens parseResults in
    let errors := res_errors parseResults in
    let '(lexDiags, s) := getLexDiagnostics document toks s in
    let '(parseDiags, s) := getParseDiagnostics document errors s in
    emit (ConnectionSendDiagnostics uri (lexDiags ++ parseDiags)) s.

(** The override "to allow parsing modes". *)
Definition parseDocument (document : lsp.TextDocument) (s : Server)
  : ParseResults * Server :=
  let content := lsp.getText document in
  let s := emit (ParserParse content (Some (mode s))) s in
  let out := parse (parser s) content (mode s) in
  let toks := out_input out in
  ({| res_cst := out_cst out; res_tokens := toks;
      res_errors := out_errors out;
      res_otherParseData := out_other out |}, s).

(** What can happen to a server after its initialisation: a parse of a
    document, or a content change delivered with the results of one. *)
Inductive Request :=
| Parse (document : lsp.TextDocument)
| Change (document : lsp.TextDocument) (parseResults : ParseResults)
| ParseAndChange (document : lsp.TextDocument).

Definition serve (r : Request) (s : Server) : Server :=
  match r with
  | Parse document => snd (parseDocument document s)
  | Change document parseResults => onContentChange document parseResults s
  | ParseAndChange document =>
      let '(parseResults, s) := parseDocument document s in
      onContentChange document parseResults s
  end.

Definition serveAll (rs : list Request) (s : Server) : Server :=
  foldl (fun s r => serve r s) s rs.

End Trig.

(** ** Vocabulary of the statements *)

(** A token that the backward search may select. *)
Definition endsBefore (cursorOffset : Z) (t : IToken) : Prop :=
  endOffset t + 1 < cursorOffset.

(** End offsets strictly increase along the sequence. *)
Definition endsIncreasing (toks : list IToken) : Prop :=
  StronglySorted (fun a b => endOffset a < endOffset b) toks.

(** The token sequences of the data model: ordered, offsets strictly
    increasing from one token to the next, no overlaps. *)
Definition ascending (toks : list IToken) : Prop :=
  Forall (fun t => startOffset t <= endOffset t) toks
  /\ StronglySorted (fun a b => endOffset a < startOffset b) toks.

Definition nonEmpty (t : IToken) : Prop := startOffset t <> endOffset t.

Definition isAssist (e : Event) : bool :=
  match e with ParserComputeContentAssist _ _ => true | _ => false end.

(** The content-assist query is made during this call of
    [handleCompletion]. *)
Definition reachesQuery (params : lsp.TextDocumentPositionParams)
    (s : Sms.Server) : Prop :=
  count isAssist (Sms.log (Sms.handleCompletion params s).2)
  = S (count isAssist (Sms.log s)).

(** Events a server adds while it serves requests in mode [m]: each call of
    [parse] among them carries a document's text and [m]. *)
Definition parsesIn (m : string) (new : list Event) : Prop :=
  Forall (fun e => isParse e = true ->
            exists document : lsp.TextDocument,
              e = ParserParse (lsp.getText document) (Some m)) new.

(** Ordering proofs for literal token lists. *)
Ltac sorted_sample :=
  repeat first [ apply SSorted_nil | apply SSorted_cons
               | apply Forall_nil_2 | apply Forall_cons_2 ];
  simpl; lia.

(** ** Sample data *)

Module Sample.

Definition tok (name : string) (s e : Z) (img : string) : IToken :=
  {| tokenType := {| tokenName := name |};
     startOffset := s; endOffset := e; image := img |}.

Definition tMapping : IToken := tok "Mapping" 0 6 "MAPPING".
Definition tIri : IToken := tok "IRIREF" 8 14 "<urn:a>".
Definition tFrom : IToken := tok "From" 16 19 "FROM".

Definition toks3 : list IToken := [tMapping; tIri; tFrom].

Definition path (name : string) : ContentAssistPath :=
  {| nextTokenType := {| tokenName := name |}; ruleStack := ["MappingDoc"] |}.

Definition output (content : string) : ParseOutput :=
  {| out_cst := CstRule "MappingDoc" [];
     out_errors := [];
     out_other := [];
     out_input := if String.eqb content "" then [] else toks3 |}.

(** A parser whose grammar starts with the [Mapping] token. *)
Definition smsParser : Sms.SmsParser :=
  {| Sms.parse := output;
     Sms.computeContentAssist := fun _ prefix =>
       match prefix with
       | [] => [path "Mapping"]
       | _ => [path "From"; path "IRIREF"]
       end |}.

Definition diag (msg : string) (o : Z) : lsp.Diagnostic :=
  {| lsp.diag_range :=
       lsp.Range_create {| lsp.line := 0; lsp.character := o |}
                        {| lsp.line := 0; lsp.character := o + 1 |};
     lsp.severity := 1;
     lsp.message := msg |}.

Definition translator : DiagnosticsTranslator :=
  {| lexDiagnostics := fun _ toks =>
       map (fun t => diag "unexpected token" (startOffset t)) toks;
     parseDiagnostics := fun _ errs =>
       map (fun e => diag (exn_message e) (startOffset (exn_token e))) errs |}.

(** A one-line document; positions and offsets coincide on line 0. *)
Definition document (u content : string) : lsp.TextDocument :=
  {| lsp.uri := u;
     lsp.getText := content;
     lsp.offsetAt := fun p => lsp.character p;
     lsp.positionAt := fun o => {| lsp.line := 0; lsp.character := o |} |}.

Definition docA : lsp.TextDocument := document "file:///a.sms" "MAPPING <urn:a> FROM".
Definition docEmpty : lsp.TextDocument := document "file:///e.sms" "".

Definition at_ (u : string) (o : Z) : lsp.TextDocumentPositionParams :=
  {| lsp.textDocument_uri := u;
     lsp.position := {| lsp.line := 0; lsp.character := o |} |}.

(** Both documents open, nothing parsed yet. *)
Definition fresh : Sms.Server :=
  {| Sms.parser := smsParser;
     Sms.translator := translator;
     Sms.basicSMS2Mapping := "MAPPING FROM ${1:source} TO { $0 }";
     Sms.syncKind0 := JsUndefined;
     Sms.documents :=
       <["file:///a.sms" := docA]> (<["file:///e.sms" := docEmpty]> ∅);
     Sms.parseStates := ∅;
     Sms.log := [] |}.

(** The same server once [docA] has been parsed and its state saved. *)
Definition cached : Sms.Server :=
  Sms.setParseStates
    (saveParseStateForUri ∅ "file:///a.sms"
       {| cst := Some (CstRule "MappingDoc" []); tokens := Some toks3 |})
    fresh.

(** The item the sample servers emit for a cursor at offset [c]. *)
Definition itemAt (d : lsp.TextDocument) (c : Z) : lsp.CompletionItem :=
  Sms.snippetItem d c (Sms.basicSMS2Mapping fresh).

Definition trigParser : Trig.TrigParser :=
  {| Trig.parse := fun content m =>
       {| out_cst := CstRule "trigDoc" [];
          out_errors := [];
          out_other := [];
          out_input :=
            if String.eqb m "stardog" then [tok "EmbeddedTriple" 0 1 "<<"]
            else [] |} |}.

Definition trig : Trig.Server := Trig.create trigParser translator JsUndefined.

Definition withMode (v : JsValue) : lsp.InitializeParams :=
  {| lsp.initializationOptions := JsObject [("mode", v)] |}.

Definition someResults : ParseResults :=
  {| res_cst := CstRule "MappingDoc" [];
     res_tokens := toks3;
     res_errors := [ {| exn_message := "Expecting token TO"; exn_token := tFrom |} ];
     res_otherParseData := [] |}.

End Sample.

(** ** Vocabulary of the further properties *)

(** The loop's test, as a boolean. *)
Definition endsBeforeb (cursorOffset : Z) (t : IToken) : bool :=
  endOffset t + 1 <? cursorOffset.

(** The cursor offset lies in the token's offset span, ends included. *)
Definition spansCursor (cursorOffset : Z) (u : IToken) : Prop :=
  startOffset u <= cursorOffset <= endOffset u.

Definition validMode (m : string) : Prop := m = "standard" \/ m = "stardog".

(** A life of a [TrigLanguageServer]: initialisations and requests, in any
    order. *)
Inductive TrigStep :=
| Initialize (params : lsp.InitializeParams)
| Serve (r : Trig.Request).

Definition trigStep (st : TrigStep) (s : Trig.Server) : Trig.Server :=
  match st with
  | Initialize params => (Trig.onInitialization params s).2
  | Serve r => Trig.serve r s
  end.

Definition trigRun (steps : list TrigStep) (s : Trig.Server) : Trig.Server :=
  foldl (fun s st => trigStep st s) s steps.

(** ** The backward search *)

Section Search.

Variable toks : list IToken.
Variable cursorOffset : Z.

(** The loop returns the last index, among those it visits, whose token
    ends before the cursor, or [-1]. *)
Lemma scanBackward_spec (n : nat) :
  (n <= length toks)%nat ->
  (scanBackward toks cursorOffset n = -1
   /\ forall i t, (i < n)%nat -> toks !! i = Some t ->
                  ~ endsBefore cursorOffset t)
  \/ (exists i t,
        scanBackward toks cursorOffset n = Z.of_nat i
        /\ (i < n)%nat
        /\ toks !! i = Some t
        /\ endsBefore cursorOffset t
        /\ forall j u, (i < j < n)%nat -> toks !! j = Some u ->
                       ~ endsBefore cursorOffset u).
Proof.
  unfold endsBefore.
  induction n as [|k IH]; intros Hn.
  - left. split; [reflexivity | intros; lia].
  - simpl.
    destruct (lookup_lt_is_Some_2 toks k ltac:(lia)) as [t Ht].
    rewrite Ht.
    destruct (Z.ltb_spec (endOffset t + 1) cursorOffset) as [Hlt|Hge].
    + right. exists k, t.
      repeat split; first [lia | assumption | (intros; lia)].
    + destruct (IH ltac:(lia)) as [[Hr Hnone]|(i & u & Hr & Hi & Hu & Hq & Hafter)].
      * left. split; [assumption|].
        intros i u Hi Hu.
        destruct (decide (i = k)) as [->|Hne].
        -- rewrite Ht in Hu. injection Hu as <-. lia.
        -- apply (Hnone i u); [lia | assumption].
      * right. exists i, u. repeat split; try lia; try assumption.
        intros j v Hj Hv.
        destruct (decide (j = k)) as [->|Hne].
        -- rewrite Ht in Hv. injection Hv as <-. lia.
        -- apply (Hafter j v); [lia | assumption].
Qed.

Lemma tokenIndexBeforeCursor_spec :
  (tokenIndexBeforeCursor toks cursorOffset = -1
   /\ forall i t, toks !! i = Some t -> ~ endsBefore cursorOffset t)
  \/ (exists i t,
        tokenIndexBeforeCursor toks cursorOffset = Z.of_nat i
        /\ toks !! i = Some t
        /\ endsBefore cursorOffset t
        /\ forall j u, (i < j)%nat -> toks !! j = Some u ->
                       ~ endsBefore cursorOffset u).
Proof.
  unfold tokenIndexBeforeCursor.
  destruct (scanBackward_spec (length toks) ltac:(lia))
    as [[Hr Hnone]|(i & t & Hr & Hi & Ht & Hq & Hafter)].
  - left. split; [assumption|].
    intros i t Ht. apply (Hnone i t); [|assumption].
    apply lookup_lt_Some in Ht. lia.
  - right. exists i, t. repeat split; try assumption.
    intros j u Hj Hu. apply (Hafter j u); [|assumption].
    apply lookup_lt_Some in Hu. lia.
Qed.

End Search.

(** ** Ordered token sequences *)

Lemma StronglySorted_lookup_lt {A} (R : A -> A -> Prop) (l : list A) :
  StronglySorted R l ->
  forall i j a b, l !! i = Some a -> l !! j = Some b -> (i < j)%nat -> R a b.
Proof.
  induction 1 as [|x l Hl IH Hx]; intros i j a b Hi Hj Hlt.
  - rewrite lookup_nil in Hi. discriminate.
  - destruct j as [|j]; [lia|].
    destruct i as [|i]; simpl in Hi, Hj.
    + injection Hi as <-.
      rewrite Forall_lookup in Hx. exact (Hx j b Hj).
    + apply (IH i j); [assumption | assumption | lia].
Qed.

Section Ordered.

Variable toks : list IToken.
Hypothesis Hasc : ascending toks.

Lemma ascending_start_le_end i t :
  toks !! i = Some t -> startOffset t <= endOffset t.
Proof.
  destruct Hasc as [Hall _]. rewrite Forall_lookup in Hall. apply Hall.
Qed.

Lemma ascending_gap i j ti tj :
  toks !! i = Some ti -> toks !! j = Some tj -> (i < j)%nat ->
  endOffset ti < startOffset tj.
Proof.
  destruct Hasc as [_ Hs]. apply (StronglySorted_lookup_lt _ _ Hs).
Qed.

Lemma ascending_ends i j ti tj :
  toks !! i = Some ti -> toks !! j = Some tj -> (i < j)%nat ->
  endOffset ti < endOffset tj.
Proof.
  intros Hi Hj Hlt.
  pose proof (ascending_gap _ _ _ _ Hi Hj Hlt).
  pose proof (ascending_start_le_end _ _ Hj). lia.
Qed.

Lemma ascending_ends_mono i j ti tj :
  toks !! i = Some ti -> toks !! j = Some tj -> (i <= j)%nat ->
  endOffset ti <= endOffset tj.
Proof.
  intros Hi Hj Hle.
  destruct (decide (i = j)) as [->|Hne].
  - rewrite Hi in Hj. injection Hj as <-. lia.
  - pose proof (ascending_ends _ _ _ _ Hi Hj ltac:(lia)). lia.
Qed.

End Ordered.

Lemma ascending_endsIncreasing (toks : list IToken) :
  ascending toks -> endsIncreasing toks.
Proof.
  intros [Hall Hs]. unfold endsIncreasing.
  induction Hs as [|x l Hl IH Hx]; constructor.
  - apply IH. by inversion Hall.
  - inversion Hall as [|? ? _ Hall']; subst.
    rewrite Forall_forall in *. intros y Hy.
    specialize (Hx y Hy). specialize (Hall' y Hy). simpl in *. lia.
Qed.

(** ** The cursor-in-token test on ordered sequences *)

Lemma js_index_of_nat {A} (a : list A) (i : nat) :
  js_index a (Z.of_nat i) = a !! i.
Proof.
  unfold js_index. destruct (Z.ltb_spec (Z.of_nat i) 0); [lia|].
  by rewrite Nat2Z.id.
Qed.

Lemma tokenAfter_sentinel (toks : list IToken) (c : Z) :
  tokenIndexBeforeCursor toks c = -1 ->
  tokenAfterTokenBeforeCursor toks c = toks !! O.
Proof.
  unfold tokenAfterTokenBeforeCursor. intros ->. reflexivity.
Qed.

Lemma tokenAfter_index (toks : list IToken) (c : Z) (i : nat) :
  tokenIndexBeforeCursor toks c = Z.of_nat i ->
  tokenAfterTokenBeforeCursor toks c = toks !! S i.
Proof.
  unfold tokenAfterTokenBeforeCursor. intros ->.
  replace (Z.of_nat i + 1) with (Z.of_nat (S i)) by lia.
  apply js_index_of_nat.
Qed.

Lemma inToken_test (u : IToken) (c : Z) :
  (startOffset u <=? c) && (endOffset u >=? c)
  && negb (startOffset u =? endOffset u) = true
  <-> startOffset u <= c <= endOffset u /\ nonEmpty u.
Proof.
  unfold nonEmpty.
  rewrite !andb_true_iff, negb_true_iff, Z.leb_le, Z.geb_le, Z.eqb_neq. lia.
Qed.

(** On an ordered sequence, the token tested is the only one that can hold
    the cursor, and the test succeeds unless some token ends right before
    the cursor. *)
Lemma isCursorInToken_iff (toks : list IToken) (c : Z) :
  ascending toks ->
  isCursorInToken toks c = true
  <-> exists u, u ∈ toks /\ nonEmpty u
                /\ startOffset u <= c <= endOffset u
                /\ forall p, p ∈ toks -> endOffset p + 1 <> c.
Proof.
  intros Hasc. unfold isCursorInToken. split.
  - destruct (tokenAfterTokenBeforeCursor toks c) as [u|] eqn:Hu; [|discriminate].
    rewrite inToken_test. intros [Hin Hne].
    exists u.
    destruct (tokenIndexBeforeCursor_spec toks c)
      as [[Hr Hnone]|(i & t & Hr & Ht & Hq & Hafter)].
    + rewrite (tokenAfter_sentinel _ _ Hr) in Hu.
      repeat split; try lia; try assumption.
      { apply list_elem_of_lookup. eauto. }
      intros p [j Hp]%list_elem_of_lookup.
      pose proof (ascending_ends_mono _ Hasc _ _ _ _ Hu Hp ltac:(lia)). lia.
    + rewrite (tokenAfter_index _ _ _ Hr) in Hu.
      repeat split; try lia; try assumption.
      { apply list_elem_of_lookup. eauto. }
      intros p [j Hp]%list_elem_of_lookup.
      unfold endsBefore in Hq.
      destruct (decide (j <= i)%nat) as [Hle|Hgt].
      * pose proof (ascending_ends_mono _ Hasc _ _ _ _ Hp Ht Hle). lia.
      * pose proof (ascending_ends_mono _ Hasc _ _ _ _ Hu Hp ltac:(lia)). lia.
  - intros (u & [k Hk]%list_elem_of_lookup & Hne & Hin & Hfree).
    assert (Hprev : forall j p, toks !! j = Some p -> (j < k)%nat ->
                           endsBefore c p).
    { intros j p Hp Hlt. unfold endsBefore.
      pose proof (ascending_gap _ Hasc _ _ _ _ Hp Hk Hlt).
      assert (endOffset p + 1 <> c)
        by (apply Hfree, list_elem_of_lookup; eauto).
      lia. }
    assert (Hu : tokenAfterTokenBeforeCursor toks c = Some u).
    { destruct (tokenIndexBeforeCursor_spec toks c)
        as [[Hr Hnone]|(i & t & Hr & Ht & Hq & Hafter)].
      - rewrite (tokenAfter_sentinel _ _ Hr).
        destruct k as [|k]; [assumption|].
        destruct (lookup_lt_is_Some_2 toks k) as [p Hp].
        { apply lookup_lt_Some in Hk. lia. }
        exfalso. apply (Hnone k p Hp). apply (Hprev k p Hp). lia.
      - rewrite (tokenAfter_index _ _ _ Hr).
        unfold endsBefore in Hq.
        assert (i < k)%nat as Hik.
        { destruct (decide (i < k)%nat); [assumption|exfalso].
          pose proof (ascending_ends_mono _ Hasc _ _ _ _ Hk Ht ltac:(lia)).
          lia. }
        destruct (decide (S i = k)) as [<-|Hne']; [assumption|].
        destruct (lookup_lt_is_Some_2 toks (S i)) as [p Hp].
        { apply lookup_lt_Some in Hk. lia. }
        exfalso. apply (Hafter (S i) p ltac:(lia) Hp).
        apply (Hprev (S i) p Hp). lia. }
    rewrite Hu. apply inToken_test. split; assumption.
Qed.

(** ** Counting events *)

Lemma count_snoc (p : Event -> bool) (l : list Event) (e : Event) :
  count p (l ++ [e]) = (count p l + if p e then 1 else 0)%nat.
Proof.
  unfold count. rewrite List.filter_app, length_app. simpl.
  by destruct (p e).
Qed.

Lemma snoc_neq {A} (l : list A) (x : A) : l <> l ++ [x].
Proof.
  intros H. apply (f_equal length) in H. rewrite length_app in H.
  simpl in H. lia.
Qed.

(** ** Steps of [handleCompletion] *)

Section SmsSteps.

Import Sms.

Variable s : Server.
Variable document : lsp.TextDocument.

Lemma tokensFor_cached (uri : string) (toks : list IToken) :
  tokens (getParseStateForUri (parseStates s) uri) = Some toks ->
  tokensFor uri document s = (toks, s).
Proof. unfold tokensFor. intros ->. reflexivity. Qed.

Lemma tokensFor_uncached (uri : string) :
  tokens (getParseStateForUri (parseStates s) uri) = None ->
  tokensFor uri document s =
    (out_input (parse (parser s) (lsp.getText document)),
     setParseStates
       (saveParseStateForUri (parseStates s) uri
          {| cst := Some (out_cst (parse (parser s) (lsp.getText document)));
             tokens :=
               Some (out_input (parse (parser s) (lsp.getText document))) |})
       (emit (ParserParse (lsp.getText document) None) s)).
Proof. unfold tokensFor. intros ->. reflexivity. Qed.

Lemma tokensFor_frame (uri : string) :
  parser (tokensFor uri document s).2 = parser s
  /\ basicSMS2Mapping (tokensFor uri document s).2 = basicSMS2Mapping s
  /\ documents (tokensFor uri document s).2 = documents s.
Proof.
  unfold tokensFor.
  destruct (tokens (getParseStateForUri (parseStates s) uri)); auto.
Qed.

Lemma completeAt_inside (c : Z) (toks : list IToken) :
  isCursorInToken toks c = true ->
  completeAt document c toks s = (Returned None, s).
Proof. unfold completeAt. intros ->. reflexivity. Qed.

Lemma completeAt_outside (c : Z) (toks : list IToken) :
  isCursorInToken toks c = false ->
  completeAt document c toks s =
    (if existsb isMapping
          (computeContentAssist (parser s) "MappingDoc" (assistPrefix toks c))
     then Returned (Some [snippetItem document c (basicSMS2Mapping s)])
     else Returned None,
     emit (ParserComputeContentAssist "MappingDoc" (assistPrefix toks c)) s).
Proof.
  unfold completeAt. intros ->. simpl.
  destruct (existsb _ _); reflexivity.
Qed.

(** The early return is the only way to come back with the server as it
    was. *)
Lemma completeAt_unchanged_iff (c : Z) (toks : list IToken) :
  completeAt document c toks s = (Returned None, s)
  <-> isCursorInToken toks c = true.
Proof.
  split; [|apply completeAt_inside].
  destruct (isCursorInToken toks c) eqn:Hin; [reflexivity|].
  rewrite (completeAt_outside _ _ Hin). intros H.
  apply (f_equal (fun r => log r.2)) in H. simpl in H.
  symmetry in H. by apply snoc_neq in H.
Qed.

Lemma completeAt_frame (c : Z) (toks : list IToken) :
  parseStates (completeAt document c toks s).2 = parseStates s
  /\ count isParse (log (completeAt document c toks s).2)
     = count isParse (log s).
Proof.
  destruct (isCursorInToken toks c) eqn:Hin.
  - rewrite (completeAt_inside _ _ Hin). auto.
  - rewrite (completeAt_outside _ _ Hin). simpl. split; [reflexivity|].
    rewrite count_snoc. simpl. lia.
Qed.

Lemma completeAt_items (c : Z) (toks : list IToken)
    (items : list lsp.CompletionItem) :
  (completeAt document c toks s).1 = Returned (Some items) ->
  items = [snippetItem document c (basicSMS2Mapping s)].
Proof.
  destruct (isCursorInToken toks c) eqn:Hin.
  - rewrite (completeAt_inside _ _ Hin). discriminate.
  - rewrite (completeAt_outside _ _ Hin). simpl.
    destruct (existsb _ _); [|discriminate].
    intros H. by injection H as <-.
Qed.

End SmsSteps.

Lemma handleCompletion_open (params : lsp.TextDocumentPositionParams)
    (s : Sms.Server) (document : lsp.TextDocument) :
  Sms.documents s !! lsp.textDocument_uri params = Some document ->
  Sms.handleCompletion params s =
    Sms.completeAt document
      (lsp.offsetAt document (lsp.position params))
      (Sms.tokensFor (lsp.textDocument_uri params) document s).1
      (Sms.tokensFor (lsp.textDocument_uri params) document s).2.
Proof.
  unfold Sms.handleCompletion. intros ->.
  by destruct (Sms.tokensFor _ _ _).
Qed.

Lemma handleCompletion_missing (params : lsp.TextDocumentPositionParams)
    (s : Sms.Server) :
  Sms.documents s !! lsp.textDocument_uri params = None ->
  exists what, Sms.handleCompletion params s = (Threw (TypeError what), s).
Proof.
  unfold Sms.handleCompletion. intros ->. eauto.
Qed.

(** Whatever [handleCompletion] answers with items, it is the single
    snippet item, built for an open document. *)
Lemma handleCompletion_items (params : lsp.TextDocumentPositionParams)
    (s : Sms.Server) (items : list lsp.CompletionItem) :
  (Sms.handleCompletion params s).1 = Returned (Some items) ->
  exists document,
    Sms.documents s !! lsp.textDocument_uri params = Some document
    /\ items = [Sms.snippetItem document
                  (lsp.offsetAt document (lsp.position params))
                  (Sms.basicSMS2Mapping s)].
Proof.
  destruct (Sms.documents s !! lsp.textDocument_uri params)
    as [document|] eqn:Hdoc.
  - rewrite (handleCompletion_open _ _ _ Hdoc). intros H.
    exists document. split; [reflexivity|].
    apply completeAt_items in H.
    destruct (tokensFor_frame s document (lsp.textDocument_uri params))
      as (_ & Hsnip & _).
    by rewrite Hsnip in H.
  - destruct (handleCompletion_missing _ _ Hdoc) as [what ->]. discriminate.
Qed.

(** ** Ordered sample data *)

Lemma toks3_ascending : ascending Sample.toks3.
Proof. split; sorted_sample. Defined.

Lemma toks3_endsIncreasing : endsIncreasing Sample.toks3.
Proof. unfold endsIncreasing. sorted_sample. Defined.

(** ** Claims about the token-before-cursor search *)

(** C1. On a token sequence as the data model has it (end offsets strictly
    increasing), the search of [handleCompletion] yields [-1] when no token
    satisfies [endOffset + 1 < cursorOffset], and otherwise the index of the
    token that satisfies it with the greatest [endOffset]; no token at
    another index reaches that [endOffset]. *)
Theorem tokenIndexBeforeCursor_max_endOffset
    (toks : list IToken) (cursorOffset : Z) :
  endsIncreasing toks ->
  (tokenIndexBeforeCursor toks cursorOffset = -1
   /\ forall t, t ∈ toks -> ~ endsBefore cursorOffset t)
  \/ (exists i t,
        tokenIndexBeforeCursor toks cursorOffset = Z.of_nat i
        /\ toks !! i = Some t
        /\ endsBefore cursorOffset t
        /\ forall j u, toks !! j = Some u -> endsBefore cursorOffset u ->
             endOffset u <= endOffset t
             /\ (endOffset u = endOffset t -> j = i)).
Proof.
  intros Hinc.
  destruct (tokenIndexBeforeCursor_spec toks cursorOffset)
    as [[Hr Hnone]|(i & t & Hr & Ht & Hq & Hafter)].
  - left. split; [assumption|].
    intros t [i Ht]%list_elem_of_lookup. by apply (Hnone i).
  - right. exists i, t. do 3 (split; [assumption|]).
    intros j u Hu Hqu.
    destruct (lt_eq_lt_dec j i) as [[Hlt | Heq] | Hgt].
    + pose proof (StronglySorted_lookup_lt _ _ Hinc _ _ _ _ Hu Ht Hlt).
      simpl in *. lia.
    + subst j. rewrite Ht in Hu. injection Hu as <-. split; [lia | reflexivity].
    + by destruct (Hafter j u Hgt Hu).
Qed.

Lemma tokenIndexBeforeCursor_max_endOffset_witness :
  endsIncreasing Sample.toks3
  /\ ((tokenIndexBeforeCursor Sample.toks3 15 = -1
       /\ forall t, t ∈ Sample.toks3 -> ~ endsBefore 15 t)
      \/ (exists i t,
            tokenIndexBeforeCursor Sample.toks3 15 = Z.of_nat i
            /\ Sample.toks3 !! i = Some t
            /\ endsBefore 15 t
            /\ forall j u, Sample.toks3 !! j = Some u -> endsBefore 15 u ->
                 endOffset u <= endOffset t
                 /\ (endOffset u = endOffset t -> j = i))).
Proof.
  split; [exact toks3_endsIncreasing|].
  exact (tokenIndexBeforeCursor_max_endOffset Sample.toks3 15
           toks3_endsIncreasing).
Defined.

Example search_between_tokens : tokenIndexBeforeCursor Sample.toks3 15 = 0.
Proof. reflexivity. Qed.

Example search_after_gap : tokenIndexBeforeCursor Sample.toks3 16 = 1.
Proof. reflexivity. Qed.

Example search_at_start : tokenIndexBeforeCursor Sample.toks3 0 = -1.
Proof. reflexivity. Qed.

Example search_empty : tokenIndexBeforeCursor [] 5 = -1.
Proof. reflexivity. Qed.

(** ** Claims about the cursor-in-token test *)

Lemma tokensFor_assist_count (s : Sms.Server) (document : lsp.TextDocument)
    (uri : string) :
  count isAssist (Sms.log (Sms.tokensFor uri document s).2)
  = count isAssist (Sms.log s).
Proof.
  unfold Sms.tokensFor.
  destruct (tokens (getParseStateForUri (Sms.parseStates s) uri));
    [reflexivity|].
  simpl. rewrite count_snoc. simpl. lia.
Qed.

Lemma reachesQuery_iff (params : lsp.TextDocumentPositionParams)
    (s : Sms.Server) (document : lsp.TextDocument) :
  Sms.documents s !! lsp.textDocument_uri params = Some document ->
  reachesQuery params s
  <-> isCursorInToken
        (Sms.tokensFor (lsp.textDocument_uri params) document s).1
        (lsp.offsetAt document (lsp.position params)) = false.
Proof.
  intros Hdoc. unfold reachesQuery.
  rewrite (handleCompletion_open _ _ _ Hdoc).
  pose proof (tokensFor_assist_count s document (lsp.textDocument_uri params))
    as Hcount.
  destruct (isCursorInToken _ _) eqn:Hin.
  - rewrite (completeAt_inside _ _ _ _ Hin). simpl. rewrite Hcount.
    split; [lia | discriminate].
  - rewrite (completeAt_outside _ _ _ _ Hin). simpl.
    rewrite count_snoc, Hcount. simpl. split; [reflexivity | lia].
Qed.

Lemma inToken_returns_nothing (params : lsp.TextDocumentPositionParams)
    (s : Sms.Server) (document : lsp.TextDocument) :
  Sms.documents s !! lsp.textDocument_uri params = Some document ->
  isCursorInToken
    (Sms.tokensFor (lsp.textDocument_uri params) document s).1
    (lsp.offsetAt document (lsp.position params)) = true ->
  (Sms.handleCompletion params s).1 = Returned None.
Proof.
  intros Hdoc Hin. rewrite (handleCompletion_open _ _ _ Hdoc).
  by rewrite (completeAt_inside _ _ _ _ Hin).
Qed.

Lemma ends_at_dec (toks : list IToken) (c : Z) :
  (exists p, p ∈ toks /\ endOffset p + 1 = c)
  \/ (forall p, p ∈ toks -> endOffset p + 1 <> c).
Proof.
  destruct (decide (Exists (fun p => endOffset p + 1 = c) toks)) as [Hex|Hno].
  - left. by apply Exists_exists.
  - right. intros p Hp Heq. apply Hno, Exists_exists. eauto.
Qed.

(** The cursor sits on the first character of [<urn:a>], a token boundary:
    the search selects [MAPPING], the token after it is [<urn:a>], whose
    span contains offset 8, and the handler returns without a query. *)
Example cursor_at_token_start :
  Sms.handleCompletion (Sample.at_ "file:///a.sms" 8) Sample.cached
  = (Returned None, Sample.cached).
Proof. reflexivity. Qed.

(** C2, as stated, fails: a cursor exactly at a token boundary (here the
    start offset of the non-empty token [<urn:a>], and equally its end
    offset) does take the in-token early return. *)
Lemma boundary_cursor_takes_early_return :
  ~ (forall (params : lsp.TextDocumentPositionParams) (s : Sms.Server)
       (document : lsp.TextDocument) (toks : list IToken) (u : IToken),
       Sms.documents s !! lsp.textDocument_uri params = Some document ->
       tokens (getParseStateForUri (Sms.parseStates s)
                 (lsp.textDocument_uri params)) = Some toks ->
       ascending toks ->
       u ∈ toks ->
       nonEmpty u ->
       lsp.offsetAt document (lsp.position params) = startOffset u
       \/ lsp.offsetAt document (lsp.position params) = endOffset u ->
       reachesQuery params s).
Proof.
  intros H.
  specialize (H (Sample.at_ "file:///a.sms" 8) Sample.cached Sample.docA
                Sample.toks3 Sample.tIri).
  unfold reachesQuery in H. rewrite cursor_at_token_start in H.
  cut (0 = 1)%nat; [discriminate|].
  apply H; try reflexivity.
  - exact toks3_ascending.
  - apply list_elem_of_lookup. by exists 1%nat.
  - unfold nonEmpty. simpl. lia.
  - by left.
Qed.

(** C2, amended. On the token sequence [handleCompletion] works with
    (ordered as in the data model): a cursor strictly inside a non-empty
    token's span, and up to its [endOffset], gets no result and no query is
    made; a cursor just past a token ([endOffset + 1]) reaches the query; a
    cursor on the [startOffset] of a non-empty token reaches the query
    exactly when some token ends right before it. *)
Theorem cursor_in_token_no_result
    (params : lsp.TextDocumentPositionParams) (s : Sms.Server)
    (document : lsp.TextDocument) :
  let uri := lsp.textDocument_uri params in
  let c := lsp.offsetAt document (lsp.position params) in
  let toks := (Sms.tokensFor uri document s).1 in
  Sms.documents s !! uri = Some document ->
  ascending toks ->
  (forall u, u ∈ toks -> startOffset u < c <= endOffset u ->
     (Sms.handleCompletion params s).1 = Returned None
     /\ ~ reachesQuery params s)
  /\ (forall u, u ∈ toks -> c = endOffset u + 1 -> reachesQuery params s)
  /\ (forall u, u ∈ toks -> nonEmpty u -> c = startOffset u ->
        (reachesQuery params s
         <-> exists p, p ∈ toks /\ endOffset p + 1 = c)).
Proof.
  intros uri c toks Hdoc Hasc.
  pose proof (reachesQuery_iff params s document Hdoc) as Hreach.
  pose proof (isCursorInToken_iff toks c Hasc) as Hiff.
  fold uri c toks in Hreach.
  split; [|split].
  - intros u [k Hk]%list_elem_of_lookup Hin.
    assert (isCursorInToken toks c = true) as Htest.
    { apply Hiff. exists u. repeat split; try lia.
      - apply list_elem_of_lookup. eauto.
      - unfold nonEmpty. lia.
      - intros p [j Hp]%list_elem_of_lookup Heq.
        destruct (decide (j < k)%nat) as [Hlt|Hge].
        + pose proof (ascending_gap _ Hasc _ _ _ _ Hp Hk Hlt). lia.
        + pose proof (ascending_ends_mono _ Hasc _ _ _ _ Hk Hp ltac:(lia)).
          lia. }
    split.
    + by apply (inToken_returns_nothing params s document Hdoc).
    + rewrite Hreach. fold uri c toks. rewrite Htest. discriminate.
  - intros u Hu Hc. apply Hreach.
    destruct (isCursorInToken toks c) eqn:Htest; [exfalso|reflexivity].
    destruct (proj1 Hiff eq_refl) as (v & _ & _ & _ & Hfree).
    by apply (Hfree u Hu).
  - intros u Hu Hne Hc. rewrite Hreach. split.
    + intros Htest.
      destruct (ends_at_dec toks c) as [Hex|Hfree]; [assumption|exfalso].
      assert (isCursorInToken toks c = true) as Htrue; [|congruence].
      apply Hiff. exists u. repeat split; try assumption; try lia.
      destruct Hasc as [Hall _]. rewrite Forall_forall in Hall.
      specialize (Hall u Hu). simpl in Hall. lia.
    + intros (p & Hp & Heq).
      destruct (isCursorInToken toks c) eqn:Htest; [exfalso|reflexivity].
      destruct (proj1 Hiff eq_refl) as (v & _ & _ & _ & Hfree).
      by apply (Hfree p Hp).
Qed.

Lemma cursor_in_token_no_result_witness :
  ascending Sample.toks3
  /\ (Sms.handleCompletion (Sample.at_ "file:///a.sms" 10) Sample.cached).1
     = Returned None
  /\ ~ reachesQuery (Sample.at_ "file:///a.sms" 10) Sample.cached.
Proof.
  split; [exact toks3_ascending|].
  apply (proj1 (cursor_in_token_no_result
                  (Sample.at_ "file:///a.sms" 10) Sample.cached Sample.docA
                  eq_refl toks3_ascending) Sample.tIri).
  - apply list_elem_of_lookup. by exists 1%nat.
  - simpl. lia.
Defined.

Example cursor_just_past_token :
  Sms.handleCompletion (Sample.at_ "file:///a.sms" 15) Sample.cached
  = (Returned None,
     Sms.emit (ParserComputeContentAssist "MappingDoc" [Sample.tMapping])
       Sample.cached).
Proof. reflexivity. Qed.

Example cursor_at_token_end :
  Sms.handleCompletion (Sample.at_ "file:///a.sms" 14) Sample.cached
  = (Returned None, Sample.cached).
Proof. reflexivity. Qed.

Example cursor_at_document_start :
  Sms.handleCompletion (Sample.at_ "file:///a.sms" 0) Sample.cached
  = (Returned None, Sample.cached).
Proof. reflexivity. Qed.

(** ** Claims about the emitted completion item *)

Lemma existsb_isMapping_iff (completions : list ContentAssistPath) :
  existsb Sms.isMapping completions = true
  <-> exists completion, completion ∈ completions
        /\ tokenName (nextTokenType completion) = "Mapping".
Proof.
  rewrite existsb_exists. unfold Sms.isMapping.
  split; intros (x & Hx & Hname); exists x.
  - rewrite list_elem_of_In. by rewrite <- String.eqb_eq.
  - rewrite <- list_elem_of_In. by rewrite String.eqb_eq.
Qed.

Lemma reachesQuery_open (params : lsp.TextDocumentPositionParams)
    (s : Sms.Server) :
  reachesQuery params s ->
  exists document,
    Sms.documents s !! lsp.textDocument_uri params = Some document.
Proof.
  unfold reachesQuery. intros Hreach.
  destruct (Sms.documents s !! lsp.textDocument_uri params)
    as [document|] eqn:Hdoc; [eauto|exfalso].
  destruct (handleCompletion_missing _ _ Hdoc) as [what Hthrow].
  rewrite Hthrow in Hreach. simpl in Hreach. lia.
Qed.

(** C3. A response of [handleCompletion] never holds more than one item;
    and when the content-assist query is made, for rule ['MappingDoc'], the
    response is exactly one item if some returned path has next token type
    ['Mapping'], and no response otherwise. *)
Theorem one_item_iff_Mapping_expected
    (params : lsp.TextDocumentPositionParams) (s : Sms.Server) :
  (forall items,
     (Sms.handleCompletion params s).1 = Returned (Some items) ->
     length items = 1%nat)
  /\ (reachesQuery params s ->
      exists prefix,
        last (Sms.log (Sms.handleCompletion params s).2)
        = Some (ParserComputeContentAssist "MappingDoc" prefix)
        /\ ((exists completion,
               completion ∈ Sms.computeContentAssist (Sms.parser s)
                               "MappingDoc" prefix
               /\ tokenName (nextTokenType completion) = "Mapping") ->
            exists item,
              (Sms.handleCompletion params s).1 = Returned (Some [item]))
        /\ ((forall completion,
               completion ∈ Sms.computeContentAssist (Sms.parser s)
                               "MappingDoc" prefix ->
               tokenName (nextTokenType completion) <> "Mapping") ->
            (Sms.handleCompletion params s).1 = Returned None)).
Proof.
  split.
  - intros items Hitems.
    destruct (handleCompletion_items _ _ _ Hitems) as (document & _ & ->).
    reflexivity.
  - intros Hreach.
    destruct (reachesQuery_open _ _ Hreach) as [document Hdoc].
    apply (reachesQuery_iff _ _ _ Hdoc) in Hreach.
    rewrite (handleCompletion_open _ _ _ Hdoc).
    rewrite (completeAt_outside _ _ _ _ Hreach). simpl.
    destruct (tokensFor_frame s document (lsp.textDocument_uri params))
      as (-> & _ & _).
    eexists. split; [apply last_snoc|].
    split.
    + intros Hex. apply existsb_isMapping_iff in Hex. rewrite Hex. eauto.
    + intros Hno.
      destruct (existsb Sms.isMapping _) eqn:Hex; [exfalso|reflexivity].
      apply existsb_isMapping_iff in Hex as (completion & Hin & Hname).
      by apply (Hno completion).
Qed.

Lemma one_item_iff_Mapping_expected_witness :
  reachesQuery (Sample.at_ "file:///e.sms" 0) Sample.fresh
  /\ exists item,
       (Sms.handleCompletion (Sample.at_ "file:///e.sms" 0) Sample.fresh).1
       = Returned (Some [item]).
Proof.
  assert (reachesQuery (Sample.at_ "file:///e.sms" 0) Sample.fresh) as Hreach
    by reflexivity.
  split; [exact Hreach|].
  destruct (proj2 (one_item_iff_Mapping_expected
                     (Sample.at_ "file:///e.sms" 0) Sample.fresh) Hreach)
    as (prefix & Hlast & Hone & _).
  apply Hone. injection Hlast as <-.
  exists (Sample.path "Mapping"). split; [constructor | reflexivity].
Defined.

(** C4. Every item that [handleCompletion] emits carries a text edit whose
    range starts and ends at [positionAt(cursorOffset - 1)]: a zero-width
    range, so that the edit inserts the snippet and replaces no text. *)
Theorem emitted_edit_is_zero_width
    (params : lsp.TextDocumentPositionParams) (s : Sms.Server)
    (items : list lsp.CompletionItem) (item : lsp.CompletionItem) :
  (Sms.handleCompletion params s).1 = Returned (Some items) ->
  item ∈ items ->
  exists document,
    Sms.documents s !! lsp.textDocument_uri params = Some document
    /\ lsp.start (lsp.range (lsp.textEdit item))
       = lsp.positionAt document
           (lsp.offsetAt document (lsp.position params) - 1)
    /\ lsp.end_ (lsp.range (lsp.textEdit item))
       = lsp.start (lsp.range (lsp.textEdit item))
    /\ lsp.newText (lsp.textEdit item) = Sms.basicSMS2Mapping s
    /\ lsp.insertTextFormat item = lsp.Snippet.
Proof.
  intros Hitems Hin.
  destruct (handleCompletion_items _ _ _ Hitems) as (document & Hdoc & ->).
  apply list_elem_of_singleton in Hin as ->.
  exists document. by repeat split.
Qed.

Lemma emitted_edit_is_zero_width_witness :
  (Sms.handleCompletion (Sample.at_ "file:///a.sms" 7) Sample.cached).1
  = Returned (Some [Sample.itemAt Sample.docA 7])
  /\ exists document,
       Sms.documents Sample.cached !! "file:///a.sms" = Some document
       /\ lsp.start (lsp.range (lsp.textEdit (Sample.itemAt Sample.docA 7)))
          = lsp.positionAt document
              (lsp.offsetAt document
                 (lsp.position (Sample.at_ "file:///a.sms" 7)) - 1)
       /\ lsp.end_ (lsp.range (lsp.textEdit (Sample.itemAt Sample.docA 7)))
          = lsp.start (lsp.range (lsp.textEdit (Sample.itemAt Sample.docA 7)))
       /\ lsp.newText (lsp.textEdit (Sample.itemAt Sample.docA 7))
          = Sms.basicSMS2Mapping Sample.cached
       /\ lsp.insertTextFormat (Sample.itemAt Sample.docA 7) = lsp.Snippet.
Proof.
  split; [reflexivity|].
  exact (emitted_edit_is_zero_width
           (Sample.at_ "file:///a.sms" 7) Sample.cached
           [Sample.itemAt Sample.docA 7] (Sample.itemAt Sample.docA 7)
           eq_refl (list_elem_of_here _ _)).
Defined.

(** C10. When an item is emitted for a cursor offset below 1 (offset 0 in
    particular), its anchor is [positionAt] of [cursorOffset - 1], a
    negative offset: the engine passes it on as it is. *)
Theorem anchor_offset_not_clamped
    (params : lsp.TextDocumentPositionParams) (s : Sms.Server)
    (document : lsp.TextDocument) (item : lsp.CompletionItem) :
  Sms.documents s !! lsp.textDocument_uri params = Some document ->
  (Sms.handleCompletion params s).1 = Returned (Some [item]) ->
  lsp.offsetAt document (lsp.position params) < 1 ->
  lsp.offsetAt document (lsp.position params) - 1 < 0
  /\ lsp.start (lsp.range (lsp.textEdit item))
     = lsp.positionAt document
         (lsp.offsetAt document (lsp.position params) - 1)
  /\ lsp.end_ (lsp.range (lsp.textEdit item))
     = lsp.positionAt document
         (lsp.offsetAt document (lsp.position params) - 1).
Proof.
  intros Hdoc Hitems Hlow.
  destruct (handleCompletion_items _ _ _ Hitems) as (document' & Hdoc' & Heq).
  rewrite Hdoc in Hdoc'. injection Hdoc' as <-.
  injection Heq as ->.
  split; [lia|]. by split.
Qed.

Lemma anchor_offset_not_clamped_witness :
  exists item,
    (Sms.handleCompletion (Sample.at_ "file:///e.sms" 0) Sample.fresh).1
    = Returned (Some [item])
    /\ lsp.start (lsp.range (lsp.textEdit item))
       = {| lsp.line := 0; lsp.character := -1 |}.
Proof.
  exists (Sample.itemAt Sample.docEmpty 0).
  split; [reflexivity|].
  apply (anchor_offset_not_clamped
           (Sample.at_ "file:///e.sms" 0) Sample.fresh Sample.docEmpty);
    [reflexivity | reflexivity | simpl; lia].
Defined.

(** ** Claims about the parse state cache *)

(** C5. When the state cached for the URI has tokens, [handleCompletion]
    works on those tokens, calls [parse] not at all and leaves the cache as
    it is; when it has none, [handleCompletion] calls [parse] exactly once,
    on the document text, and saves [{cst, tokens}] of that parse under the
    URI, leaving the other entries alone. *)
Theorem cached_tokens_reused_else_single_parse
    (params : lsp.TextDocumentPositionParams) (s : Sms.Server)
    (document : lsp.TextDocument) :
  let uri := lsp.textDocument_uri params in
  let c := lsp.offsetAt document (lsp.position params) in
  Sms.documents s !! uri = Some document ->
  (forall toks,
     tokens (getParseStateForUri (Sms.parseStates s) uri) = Some toks ->
     Sms.handleCompletion params s = Sms.completeAt document c toks s
     /\ count isParse (Sms.log (Sms.handleCompletion params s).2)
        = count isParse (Sms.log s)
     /\ Sms.parseStates (Sms.handleCompletion params s).2
        = Sms.parseStates s)
  /\ (tokens (getParseStateForUri (Sms.parseStates s) uri) = None ->
      let out := Sms.parse (Sms.parser s) (lsp.getText document) in
      let saved :=
        {| cst := Some (out_cst out); tokens := Some (out_input out) |} in
      Sms.handleCompletion params s
      = Sms.completeAt document c (out_input out)
          (Sms.setParseStates
             (saveParseStateForUri (Sms.parseStates s) uri saved)
             (Sms.emit (ParserParse (lsp.getText document) None) s))
      /\ count isParse (Sms.log (Sms.handleCompletion params s).2)
         = S (count isParse (Sms.log s))
      /\ getParseStateForUri
           (Sms.parseStates (Sms.handleCompletion params s).2) uri
         = saved
      /\ forall other, other <> uri ->
           Sms.parseStates (Sms.handleCompletion params s).2 !! other
           = Sms.parseStates s !! other).
Proof.
  intros uri c Hdoc.
  rewrite (handleCompletion_open _ _ _ Hdoc). fold uri c.
  split.
  - intros toks Hcached.
    rewrite (tokensFor_cached _ _ _ _ Hcached). simpl.
    split; [reflexivity|].
    destruct (completeAt_frame s document c toks) as [Hstates Hcount].
    by split.
  - intros Hnone out saved.
    rewrite (tokensFor_uncached _ _ _ Hnone). simpl. fold out saved.
    split; [reflexivity|].
    match goal with
    | |- context [Sms.completeAt document c ?t ?s1] =>
        destruct (completeAt_frame s1 document c t) as [Hstates Hcount]
    end.
    rewrite Hstates, Hcount. simpl.
    split; [|split].
    + rewrite count_snoc. simpl. lia.
    + unfold getParseStateForUri, saveParseStateForUri.
      by rewrite lookup_insert_eq.
    + intros other Hother. unfold saveParseStateForUri.
      by rewrite lookup_insert_ne.
Qed.

Lemma cached_tokens_reused_else_single_parse_witness :
  (count isParse
     (Sms.log (Sms.handleCompletion (Sample.at_ "file:///a.sms" 7)
                 Sample.cached).2)
   = count isParse (Sms.log Sample.cached))
  /\ (count isParse
        (Sms.log (Sms.handleCompletion (Sample.at_ "file:///a.sms" 7)
                    Sample.fresh).2)
      = S (count isParse (Sms.log Sample.fresh))).
Proof.
  pose proof (cached_tokens_reused_else_single_parse
                (Sample.at_ "file:///a.sms" 7) Sample.cached Sample.docA
                eq_refl) as [Hhit _].
  pose proof (cached_tokens_reused_else_single_parse
                (Sample.at_ "file:///a.sms" 7) Sample.fresh Sample.docA
                eq_refl) as [_ Hmiss].
  split.
  - exact (proj1 (proj2 (Hhit Sample.toks3 eq_refl))).
  - exact (proj1 (proj2 (Hmiss eq_refl))).
Defined.

(** Two requests in a row on a document never parsed: one parse in all. *)
Example second_request_reuses_first_parse :
  let s1 := (Sms.handleCompletion (Sample.at_ "file:///a.sms" 7)
               Sample.fresh).2 in
  let s2 := (Sms.handleCompletion (Sample.at_ "file:///a.sms" 15) s1).2 in
  count isParse (Sms.log s1) = 1%nat /\ count isParse (Sms.log s2) = 1%nat.
Proof. split; reflexivity. Qed.

(** ** A request for a document that is not open *)

(** C9 fails on the code: with no open document under the URI,
    [documents.get] yields [undefined] and the call of [offsetAt] on it
    throws; nothing is returned. *)
Theorem completion_without_document_throws :
  Sms.documents Sample.fresh !! "file:///closed.sms" = None
  /\ Sms.handleCompletion (Sample.at_ "file:///closed.sms" 0) Sample.fresh
     = (Threw (TypeError "Cannot read property 'offsetAt' of undefined"),
        Sample.fresh).
Proof. split; reflexivity. Qed.

(** ** Claims about the content-change handlers *)

Lemma length_zero_iff_empty (content : string) :
  (String.length content =? 0)%nat = true <-> content = "".
Proof.
  rewrite Nat.eqb_eq. destruct content; simpl; split; congruence.
Qed.

(** C6. For a document with empty text, both content-change handlers make
    one outgoing call only: [sendDiagnostics] for the document's URI with an
    empty list. Neither diagnostics pass runs, whatever the parse results
    are. *)
Theorem empty_text_sends_empty_diagnostics
    (document : lsp.TextDocument) (parseResults : ParseResults)
    (sms : Sms.Server) (trig : Trig.Server) :
  lsp.getText document = "" ->
  (Sms.log (Sms.onContentChange document parseResults sms)
   = Sms.log sms ++ [ConnectionSendDiagnostics (lsp.uri document) []]
   /\ count isDiagnosticsPass
        (Sms.log (Sms.onContentChange document parseResults sms))
      = count isDiagnosticsPass (Sms.log sms))
  /\ (Trig.log (Trig.onContentChange document parseResults trig)
      = Trig.log trig ++ [ConnectionSendDiagnostics (lsp.uri document) []]
      /\ count isDiagnosticsPass
           (Trig.log (Trig.onContentChange document parseResults trig))
         = count isDiagnosticsPass (Trig.log trig)).
Proof.
  intros Hempty.
  apply length_zero_iff_empty in Hempty.
  unfold Sms.onContentChange, Trig.onContentChange. rewrite Hempty. simpl.
  rewrite !count_snoc. simpl. repeat split; lia.
Qed.

Lemma empty_text_sends_empty_diagnostics_witness :
  Sms.log (Sms.onContentChange Sample.docEmpty Sample.someResults Sample.fresh)
  = [ConnectionSendDiagnostics "file:///e.sms" []]
  /\ Trig.log (Trig.onContentChange Sample.docEmpty Sample.someResults
                 Sample.trig)
     = [ConnectionSendDiagnostics "file:///e.sms" []].
Proof.
  pose proof (empty_text_sends_empty_diagnostics
                Sample.docEmpty Sample.someResults Sample.fresh Sample.trig
                eq_refl) as [[Hsms _] [Htrig _]].
  split; [exact Hsms | exact Htrig].
Defined.

(** C7. For a document with non-empty text, both content-change handlers
    run the lexical pass on the tokens, then the syntactic pass on the
    errors, and send once, for the document's URI, the lexical diagnostics
    followed by the syntactic ones. *)
Theorem nonempty_text_sends_lex_then_parse_diagnostics
    (document : lsp.TextDocument) (parseResults : ParseResults)
    (sms : Sms.Server) (trig : Trig.Server) :
  lsp.getText document <> "" ->
  let uri := lsp.uri document in
  let toks := res_tokens parseResults in
  let errs := res_errors parseResults in
  let batch (t : DiagnosticsTranslator) :=
    lexDiagnostics t document toks ++ parseDiagnostics t document errs in
  (Sms.log (Sms.onContentChange document parseResults sms)
   = Sms.log sms
     ++ [GetLexDiagnostics uri toks; GetParseDiagnostics uri errs;
         ConnectionSendDiagnostics uri (batch (Sms.translator sms))]
   /\ count isSendDiagnostics
        (Sms.log (Sms.onContentChange document parseResults sms))
      = S (count isSendDiagnostics (Sms.log sms)))
  /\ (Trig.log (Trig.onContentChange document parseResults trig)
      = Trig.log trig
        ++ [GetLexDiagnostics uri toks; GetParseDiagnostics uri errs;
            ConnectionSendDiagnostics uri (batch (Trig.translator trig))]
      /\ count isSendDiagnostics
           (Trig.log (Trig.onContentChange document parseResults trig))
         = S (count isSendDiagnostics (Trig.log trig))).
Proof.
  intros Hne uri toks errs batch.
  assert ((String.length (lsp.getText document) =? 0)%nat = false) as Hlen.
  { destruct (String.length (lsp.getText document) =? 0)%nat eqn:H;
      [|reflexivity].
    by apply length_zero_iff_empty in H. }
  unfold Sms.onContentChange, Trig.onContentChange. rewrite Hlen. simpl.
  rewrite !count_snoc. simpl.
  rewrite <- !app_assoc. simpl. repeat split; lia.
Qed.

Lemma nonempty_text_sends_lex_then_parse_diagnostics_witness :
  Sms.log (Sms.onContentChange Sample.docA Sample.someResults Sample.fresh)
  = [GetLexDiagnostics "file:///a.sms" Sample.toks3;
     GetParseDiagnostics "file:///a.sms" (res_errors Sample.someResults);
     ConnectionSendDiagnostics "file:///a.sms"
       [Sample.diag "unexpected token" 0; Sample.diag "unexpected token" 8;
        Sample.diag "unexpected token" 16;
        Sample.diag "Expecting token TO" 16]].
Proof.
  assert (lsp.getText Sample.docA <> "") as Hne by discriminate.
  exact (proj1 (proj1 (nonempty_text_sends_lex_then_parse_diagnostics
                         Sample.docA Sample.someResults Sample.fresh
                         Sample.trig Hne))).
Defined.

(** ** Claims about the dialect mode *)

Lemma strictEqString_iff (v : JsValue) (lit : string) :
  strictEqString v lit = true <-> v = JsString lit.
Proof.
  destruct v; simpl; try (split; [discriminate | congruence]).
  rewrite String.eqb_eq. split; congruence.
Qed.

(** The assignment is executed exactly for a truthy options value whose
    [mode] is one of the two strings, and assigns that string. *)
Lemma acceptedMode_iff (params : lsp.InitializeParams) (m : string) :
  Trig.acceptedMode params = Some m
  <-> truthy (lsp.initializationOptions params) = true
      /\ getProp (lsp.initializationOptions params) "mode" = JsString m
      /\ (m = "stardog" \/ m = "standard").
Proof.
  unfold Trig.acceptedMode.
  destruct (truthy (lsp.initializationOptions params)); simpl;
    [|split; [discriminate | intros [? _]; discriminate]].
  destruct (getProp (lsp.initializationOptions params) "mode") as [| | | |v|];
    simpl; try (split; [discriminate | intros (_ & ? & _); discriminate]).
  destruct (String.eqb_spec v "stardog") as [->|Hs]; simpl.
  - split.
    + intros [= <-]. auto.
    + intros (_ & [= <-] & _). reflexivity.
  - destruct (String.eqb_spec v "standard") as [->|Hd]; simpl.
    + split.
      * intros [= <-]. auto.
      * intros (_ & [= <-] & _). reflexivity.
    + split; [discriminate|].
      intros (_ & [= <-] & [?|?]); congruence.
Qed.

Lemma acceptedMode_none (params : lsp.InitializeParams) :
  Trig.acceptedMode params = None
  <-> ~ (truthy (lsp.initializationOptions params) = true
         /\ (getProp (lsp.initializationOptions params) "mode"
               = JsString "stardog"
             \/ getProp (lsp.initializationOptions params) "mode"
                  = JsString "standard")).
Proof.
  split.
  - intros Hnone (Ht & [Hm|Hm]).
    + assert (Trig.acceptedMode params = Some "stardog") as H
        by (apply acceptedMode_iff; auto).
      congruence.
    + assert (Trig.acceptedMode params = Some "standard") as H
        by (apply acceptedMode_iff; auto).
      congruence.
  - intros Hno.
    destruct (Trig.acceptedMode params) as [m|] eqn:Hacc; [exfalso|reflexivity].
    apply acceptedMode_iff in Hacc as (Ht & Hm & [->| ->]); auto.
Qed.

Lemma parseDocument_log (document : lsp.TextDocument) (s : Trig.Server) :
  Trig.log (Trig.parseDocument document s).2
  = Trig.log s ++ [ParserParse (lsp.getText document) (Some (Trig.mode s))]
  /\ Trig.mode (Trig.parseDocument document s).2 = Trig.mode s.
Proof. by split. Qed.

Lemma onContentChange_log (document : lsp.TextDocument)
    (parseResults : ParseResults) (s : Trig.Server) :
  exists new,
    Trig.log (Trig.onContentChange document parseResults s)
    = Trig.log s ++ new
    /\ Forall (fun e => isParse e = false) new
    /\ Trig.mode (Trig.onContentChange document parseResults s)
       = Trig.mode s.
Proof.
  unfold Trig.onContentChange.
  destruct (String.length (lsp.getText document) =? 0)%nat; simpl.
  - eexists. split; [reflexivity|]. split; [|reflexivity].
    by repeat constructor.
  - eexists. split; [by rewrite <- !app_assoc|]. split; [|reflexivity].
    by repeat constructor.
Qed.

Lemma serve_log (r : Trig.Request) (s : Trig.Server) :
  exists new,
    Trig.log (Trig.serve r s) = Trig.log s ++ new
    /\ parsesIn (Trig.mode s) new
    /\ Trig.mode (Trig.serve r s) = Trig.mode s.
Proof.
  destruct r as [document|document parseResults|document]; simpl.
  - eexists. split; [reflexivity|]. split; [|reflexivity].
    constructor; [eauto|constructor].
  - destruct (onContentChange_log document parseResults s)
      as (new & Hlog & Hnew & Hmode).
    exists new. split; [assumption|]. split; [|assumption].
    unfold parsesIn. eapply Forall_impl; [exact Hnew|].
    simpl. intros e -> ?. discriminate.
  - match goal with
    | |- context [Trig.onContentChange document ?pr ?s1] =>
        destruct (onContentChange_log document pr s1)
          as (new & Hlog & Hnew & Hmode)
    end.
    eexists. rewrite Hlog, Hmode. simpl.
    split; [by rewrite <- app_assoc|]. split; [|reflexivity].
    constructor; [eauto|].
    eapply Forall_impl; [exact Hnew|].
    simpl. intros e -> ?. discriminate.
Qed.

Lemma serveAll_log (rs : list Trig.Request) (s : Trig.Server) :
  exists new,
    Trig.log (Trig.serveAll rs s) = Trig.log s ++ new
    /\ parsesIn (Trig.mode s) new
    /\ Trig.mode (Trig.serveAll rs s) = Trig.mode s.
Proof.
  unfold Trig.serveAll.
  revert s. induction rs as [|r rs IH]; intros s; simpl.
  - exists []. rewrite app_nil_r. repeat split. constructor.
  - destruct (serve_log r s) as (new1 & Hlog1 & Hnew1 & Hmode1).
    destruct (IH (Trig.serve r s)) as (new2 & Hlog2 & Hnew2 & Hmode2).
    exists (new1 ++ new2).
    rewrite Hlog2, Hlog1, Hmode2, Hmode1, <- app_assoc.
    repeat split. rewrite Hmode1 in Hnew2.
    by apply Forall_app.
Qed.

(** C8. [onInitialization] assigns the mode only for a truthy options value
    whose [mode] is exactly ['stardog'] or ['standard']; for anything else
    the server is left as it was, which for a new server is mode
    ['standard']; it has a result in every case and makes no outgoing call.
    From then on every call of [parse] is made with the document text and
    the mode of the session, which no request changes. *)
Theorem mode_validated_then_passed_to_every_parse
    (params : lsp.InitializeParams) (s : Trig.Server)
    (rs : list Trig.Request) :
  let opts := lsp.initializationOptions params in
  let s' := (Trig.onInitialization params s).2 in
  (forall m, truthy opts = true ->
     getProp opts "mode" = JsString m ->
     m = "stardog" \/ m = "standard" ->
     Trig.mode s' = m)
  /\ (~ (truthy opts = true
         /\ (getProp opts "mode" = JsString "stardog"
             \/ getProp opts "mode" = JsString "standard")) ->
      s' = s)
  /\ (forall p t k, Trig.mode (Trig.create p t k) = "standard")
  /\ Trig.log s' = Trig.log s
  /\ (forall document,
        Trig.log (Trig.parseDocument document s').2
        = Trig.log s'
          ++ [ParserParse (lsp.getText document) (Some (Trig.mode s'))]
        /\ res_tokens (Trig.parseDocument document s').1
           = out_input
               (Trig.parse (Trig.parser s') (lsp.getText document)
                  (Trig.mode s')))
  /\ (exists new,
        Trig.log (Trig.serveAll rs s') = Trig.log s' ++ new
        /\ parsesIn (Trig.mode s') new
        /\ Trig.mode (Trig.serveAll rs s') = Trig.mode s').
Proof.
  intros opts s'. subst opts s'. unfold Trig.onInitialization. simpl.
  repeat split.
  - intros m Ht Hm Hvalid.
    assert (Trig.acceptedMode params = Some m) as ->
      by (apply acceptedMode_iff; auto).
    reflexivity.
  - intros Hno. apply acceptedMode_none in Hno. by rewrite Hno.
  - by destruct (Trig.acceptedMode params).
  - apply serveAll_log.
Qed.

Example init_stardog :
  Trig.mode (Trig.onInitialization (Sample.withMode (JsString "stardog"))
               Sample.trig).2 = "stardog".
Proof. reflexivity. Qed.

Example init_unknown_mode :
  Trig.mode (Trig.onInitialization (Sample.withMode (JsString "turtle"))
               Sample.trig).2 = "standard".
Proof. reflexivity. Qed.

Example init_mode_not_a_string :
  Trig.mode (Trig.onInitialization (Sample.withMode (JsNumber 1))
               Sample.trig).2 = "standard".
Proof. reflexivity. Qed.

Example init_without_options :
  Trig.mode (Trig.onInitialization
               {| lsp.initializationOptions := JsUndefined |}
               Sample.trig).2 = "standard".
Proof. reflexivity. Qed.

Example parse_after_init_stardog :
  let s := (Trig.onInitialization (Sample.withMode (JsString "stardog"))
              Sample.trig).2 in
  Trig.log (Trig.serveAll
              [Trig.ParseAndChange (Sample.document "file:///g.trig" "<<")]
              s)
  = [ParserParse "<<" (Some "stardog");
     GetLexDiagnostics "file:///g.trig" [Sample.tok "EmbeddedTriple" 0 1 "<<"];
     GetParseDiagnostics "file:///g.trig" [];
     ConnectionSendDiagnostics "file:///g.trig"
       [Sample.diag "unexpected token" 0]].
Proof. reflexivity. Qed.

(** * Further properties of the code *)

(** ** The backward search on arbitrary token lists *)

(** X1. For any token list, ordered or not, the search returns an index
    between [-1] and the last index; [-1] exactly when no token has
    [endOffset + 1 < cursorOffset]; and index [i] exactly when the token at
    [i] has it and no token at a greater index does. *)
Theorem search_returns_last_qualifying_index
    (toks : list IToken) (cursorOffset : Z) :
  -1 <= tokenIndexBeforeCursor toks cursorOffset < Z.of_nat (length toks)
  /\ (tokenIndexBeforeCursor toks cursorOffset = -1
      <-> forall t, t ∈ toks -> ~ endsBefore cursorOffset t)
  /\ (forall i : nat,
        tokenIndexBeforeCursor toks cursorOffset = Z.of_nat i
        <-> (exists t, toks !! i = Some t /\ endsBefore cursorOffset t)
            /\ forall j u, (i < j)%nat -> toks !! j = Some u ->
                           ~ endsBefore cursorOffset u).
Proof.
  destruct (tokenIndexBeforeCursor_spec toks cursorOffset)
    as [[Hr Hnone]|(i & t & Hr & Ht & Hq & Hafter)]; rewrite Hr.
  - split; [lia|]. split.
    + split; [|reflexivity].
      intros _ t [i Ht]%list_elem_of_lookup. by apply (Hnone i).
    + intros i. split; [lia|].
      intros [(t & Ht & Hq) _]. by destruct (Hnone i t Ht).
  - pose proof (lookup_lt_Some _ _ _ Ht) as Hlen.
    split; [lia|]. split.
    + split; [lia|].
      intros Hno. destruct (Hno t); [|assumption].
      apply list_elem_of_lookup. eauto.
    + intros i'. split.
      * intros Heq. apply Nat2Z.inj in Heq. subst i'. eauto.
      * intros [(t' & Ht' & Hq') Hafter'].
        destruct (lt_eq_lt_dec i i') as [[Hlt | Heq] | Hgt].
        -- by destruct (Hafter i' t' Hlt Ht').
        -- by subst.
        -- by destruct (Hafter' i t Hgt Ht).
Qed.

(** X2. Moving the cursor to the right never moves the selected index to
    the left. *)
Theorem search_monotone_in_cursor (toks : list IToken) (c1 c2 : Z) :
  c1 <= c2 ->
  tokenIndexBeforeCursor toks c1 <= tokenIndexBeforeCursor toks c2.
Proof.
  intros Hle.
  destruct (tokenIndexBeforeCursor_spec toks c1)
    as [[Hr1 _]|(i1 & t1 & Hr1 & Ht1 & Hq1 & _)]; rewrite Hr1.
  - destruct (tokenIndexBeforeCursor_spec toks c2)
      as [[Hr2 _]|(i2 & t2 & Hr2 & _)]; rewrite Hr2; lia.
  - assert (endsBefore c2 t1) as Hq2 by (unfold endsBefore in *; lia).
    destruct (tokenIndexBeforeCursor_spec toks c2)
      as [[Hr2 Hnone]|(i2 & t2 & Hr2 & Ht2 & _ & Hafter)]; rewrite Hr2.
    + by destruct (Hnone i1 t1 Ht1).
    + destruct (decide (i2 < i1)%nat) as [Hlt|Hge]; [|lia].
      by destruct (Hafter i1 t1 Hlt Ht1).
Qed.

Lemma search_monotone_in_cursor_witness :
  tokenIndexBeforeCursor Sample.toks3 8 <= tokenIndexBeforeCursor Sample.toks3 16.
Proof.
  apply (search_monotone_in_cursor Sample.toks3 8 16). lia.
Defined.

(** ** The prefix handed to the content-assist query *)

Lemma assistPrefix_take (toks : list IToken) (c : Z) :
  assistPrefix toks c = take (Z.to_nat (tokenIndexBeforeCursor toks c + 1)) toks.
Proof.
  unfold assistPrefix, js_slice0.
  destruct (Z.eqb_spec (tokenIndexBeforeCursor toks c) (-1)) as [->|]; reflexivity.
Qed.

(** X3. For any token list, the prefix handed to the query is an initial
    segment of the tokens: it ends with a token that ends before the cursor
    (when it is not empty), and none of the tokens left out ends before the
    cursor. *)
Theorem assistPrefix_splits_tokens (toks : list IToken) (cursorOffset : Z) :
  exists rest,
    toks = assistPrefix toks cursorOffset ++ rest
    /\ Forall (fun t => ~ endsBefore cursorOffset t) rest
    /\ (forall t, last (assistPrefix toks cursorOffset) = Some t ->
                  endsBefore cursorOffset t).
Proof.
  rewrite assistPrefix_take.
  exists (drop (Z.to_nat (tokenIndexBeforeCursor toks cursorOffset + 1)) toks).
  split; [by rewrite take_drop|].
  destruct (tokenIndexBeforeCursor_spec toks cursorOffset)
    as [[Hr Hnone]|(i & t & Hr & Ht & Hq & Hafter)]; rewrite Hr.
  - simpl. split; [|discriminate].
    rewrite drop_0. apply Forall_lookup. intros j u Hu. by apply (Hnone j).
  - replace (Z.to_nat (Z.of_nat i + 1)) with (S i) by lia.
    split.
    + apply Forall_lookup. intros j u Hu. rewrite lookup_drop in Hu.
      apply (Hafter (S i + j)%nat u); [lia | assumption].
    + intros u Hlast. rewrite last_lookup, length_take in Hlast.
      pose proof (lookup_lt_Some _ _ _ Ht) as Hlen.
      replace (pred (S i `min` length toks)) with i in Hlast by lia.
      rewrite lookup_take_lt in Hlast by lia.
      rewrite Ht in Hlast. by injection Hlast as <-.
Qed.

Lemma filter_keeps_all {A} (f : A -> bool) (l : list A) :
  Forall (fun x => f x = true) l -> List.filter f l = l.
Proof.
  induction 1 as [|x l Hx _ IH]; simpl; [reflexivity|].
  by rewrite Hx, IH.
Qed.

Lemma filter_keeps_none {A} (f : A -> bool) (l : list A) :
  Forall (fun x => f x = false) l -> List.filter f l = [].
Proof.
  induction 1 as [|x l Hx _ IH]; simpl; [reflexivity|].
  by rewrite Hx, IH.
Qed.

Lemma endsBeforeb_iff (c : Z) (t : IToken) :
  endsBeforeb c t = true <-> endsBefore c t.
Proof. unfold endsBeforeb, endsBefore. apply Z.ltb_lt. Qed.

(** X4. On a token sequence whose end offsets increase, the prefix handed
    to the query consists of exactly the tokens with
    [endOffset + 1 < cursorOffset], in their order. *)
Theorem assistPrefix_is_tokens_before_cursor
    (toks : list IToken) (cursorOffset : Z) :
  endsIncreasing toks ->
  assistPrefix toks cursorOffset
  = List.filter (endsBeforeb cursorOffset) toks.
Proof.
  intros Hinc.
  destruct (assistPrefix_splits_tokens toks cursorOffset)
    as (rest & Hsplit & Hrest & Hlast).
  revert Hsplit Hlast. generalize (assistPrefix toks cursorOffset).
  intros pre -> Hlast.
  rewrite List.filter_app.
  rewrite (filter_keeps_none _ rest), app_nil_r.
  - symmetry. apply filter_keeps_all.
    destruct (last pre) as [t|] eqn:Ht.
    + specialize (Hlast t eq_refl).
      apply Forall_lookup. intros j u Hu.
      apply endsBeforeb_iff. unfold endsBefore in *.
      rewrite last_lookup in Ht.
      destruct (decide (j = pred (length pre))) as [->|Hne].
      * rewrite Ht in Hu. injection Hu as <-. lia.
      * pose proof (lookup_lt_Some _ _ _ Hu) as Hj.
        assert (endOffset u < endOffset t); [|lia].
        apply (StronglySorted_lookup_lt _ _ Hinc j (pred (length pre))).
        -- by apply lookup_app_l_Some.
        -- by apply lookup_app_l_Some.
        -- lia.
    + apply last_None in Ht. rewrite Ht. constructor.
  - eapply Forall_impl; [exact Hrest|]. simpl. intros t Hn.
    destruct (endsBeforeb cursorOffset t) eqn:Hb; [|reflexivity].
    by apply endsBeforeb_iff in Hb.
Qed.

Lemma assistPrefix_is_tokens_before_cursor_witness :
  assistPrefix Sample.toks3 16 = [Sample.tMapping; Sample.tIri].
Proof.
  exact (assistPrefix_is_tokens_before_cursor Sample.toks3 16
           toks3_endsIncreasing).
Defined.

Lemma scanBackward_app_l (toks extra : list IToken) (c : Z) (n : nat) :
  (n <= length toks)%nat ->
  scanBackward (toks ++ extra) c n = scanBackward toks c n.
Proof.
  induction n as [|n IH]; intros Hn; simpl; [reflexivity|].
  rewrite lookup_app_l by lia. rewrite IH by lia. reflexivity.
Qed.

Lemma scanBackward_skip (toks extra : list IToken) (c : Z) (n : nat) :
  Forall (fun t => ~ endsBefore c t) extra ->
  (n <= length extra)%nat ->
  scanBackward (toks ++ extra) c (length toks + n)
  = scanBackward (toks ++ extra) c (length toks).
Proof.
  intros Hextra. induction n as [|n IH]; intros Hn.
  - by rewrite Nat.add_0_r.
  - rewrite Nat.add_succ_r. simpl.
    rewrite lookup_app_r by lia.
    replace (length toks + n - length toks)%nat with n by lia.
    destruct (lookup_lt_is_Some_2 extra n ltac:(lia)) as [u Hu].
    rewrite Hu.
    rewrite Forall_lookup in Hextra. specialize (Hextra n u Hu).
    unfold endsBefore in Hextra.
    destruct (Z.ltb_spec (endOffset u + 1) c); [lia|].
    apply IH. lia.
Qed.

(** X5. Tokens appended after the list, none of which ends before the
    cursor, change neither the selected index nor the prefix handed to the
    query. *)
Theorem tokens_right_of_cursor_ignored
    (toks extra : list IToken) (cursorOffset : Z) :
  Forall (fun t => ~ endsBefore cursorOffset t) extra ->
  tokenIndexBeforeCursor (toks ++ extra) cursorOffset
  = tokenIndexBeforeCursor toks cursorOffset
  /\ assistPrefix (toks ++ extra) cursorOffset
     = assistPrefix toks cursorOffset.
Proof.
  intros Hextra.
  assert (tokenIndexBeforeCursor (toks ++ extra) cursorOffset
          = tokenIndexBeforeCursor toks cursorOffset) as Hidx.
  { unfold tokenIndexBeforeCursor. rewrite length_app.
    rewrite (scanBackward_skip _ _ _ _ Hextra) by lia.
    by apply scanBackward_app_l. }
  split; [assumption|].
  rewrite !assistPrefix_take, Hidx.
  apply take_app_le.
  destruct (tokenIndexBeforeCursor_spec toks cursorOffset)
    as [[-> _]|(i & t & -> & Ht & _)]; [simpl; lia|].
  apply lookup_lt_Some in Ht. lia.
Qed.

Lemma tokens_right_of_cursor_ignored_witness :
  assistPrefix ([Sample.tMapping] ++ [Sample.tIri; Sample.tFrom]) 8
  = assistPrefix [Sample.tMapping] 8.
Proof.
  apply (tokens_right_of_cursor_ignored
           [Sample.tMapping] [Sample.tIri; Sample.tFrom] 8).
  repeat constructor; unfold endsBefore; simpl; lia.
Defined.

(** X6. When the last token ends before the cursor, the search selects the
    last index, the whole token list is the prefix of the query, and the
    in-token test fails, whatever the order of the other tokens. *)
Theorem cursor_past_last_token
    (toks : list IToken) (t : IToken) (cursorOffset : Z) :
  last toks = Some t ->
  endsBefore cursorOffset t ->
  tokenIndexBeforeCursor toks cursorOffset = Z.of_nat (length toks) - 1
  /\ assistPrefix toks cursorOffset = toks
  /\ isCursorInToken toks cursorOffset = false.
Proof.
  intros [l ->]%last_Some Hq. unfold endsBefore in Hq.
  assert (tokenIndexBeforeCursor (l ++ [t]) cursorOffset
          = Z.of_nat (length l)) as Hidx.
  { unfold tokenIndexBeforeCursor. rewrite length_app, Nat.add_1_r. simpl.
    rewrite list_lookup_middle by reflexivity.
    destruct (Z.ltb_spec (endOffset t + 1) cursorOffset); [reflexivity|lia]. }
  rewrite length_app, Nat.add_1_r.
  split; [rewrite Hidx; lia|]. split.
  - rewrite assistPrefix_take, Hidx. apply take_ge.
    rewrite length_app. simpl. lia.
  - unfold isCursorInToken.
    rewrite (tokenAfter_index _ _ _ Hidx).
    rewrite (proj2 (lookup_ge_None _ _)); [reflexivity|].
    rewrite length_app. simpl. lia.
Qed.

Lemma cursor_past_last_token_witness :
  tokenIndexBeforeCursor Sample.toks3 21 = Z.of_nat (length Sample.toks3) - 1
  /\ assistPrefix Sample.toks3 21 = Sample.toks3
  /\ isCursorInToken Sample.toks3 21 = false.
Proof.
  apply (cursor_past_last_token Sample.toks3 Sample.tFrom 21).
  - reflexivity.
  - unfold endsBefore. simpl. lia.
Defined.

(** ** What a completion request does to the server *)

Lemma handleCompletion_documents
    (params : lsp.TextDocumentPositionParams) (s : Sms.Server) :
  Sms.documents (Sms.handleCompletion params s).2 = Sms.documents s.
Proof.
  destruct (Sms.documents s !! lsp.textDocument_uri params)
    as [document|] eqn:Hdoc.
  - rewrite (handleCompletion_open _ _ _ Hdoc).
    destruct (tokensFor_frame s document (lsp.textDocument_uri params))
      as (_ & _ & <-).
    unfold Sms.completeAt.
    destruct (isCursorInToken _ _); [reflexivity|].
    simpl. by destruct (existsb _ _).
  - by destruct (handleCompletion_missing _ _ Hdoc) as [what ->].
Qed.

(** X7. Whatever the request, [handleCompletion] leaves the open documents
    as they are, and adds to the log at most one call of [parse] (without a
    mode) followed by at most one content-assist query for ['MappingDoc'];
    it sends no diagnostics. *)
Theorem handleCompletion_footprint
    (params : lsp.TextDocumentPositionParams) (s : Sms.Server) :
  Sms.documents (Sms.handleCompletion params s).2 = Sms.documents s
  /\ exists parses queries,
       Sms.log (Sms.handleCompletion params s).2
       = Sms.log s ++ parses ++ queries
       /\ (parses = [] \/ exists content, parses = [ParserParse content None])
       /\ (queries = []
           \/ exists prefix,
                queries = [ParserComputeContentAssist "MappingDoc" prefix]).
Proof.
  destruct (Sms.documents s !! lsp.textDocument_uri params)
    as [document|] eqn:Hdoc.
  - rewrite (handleCompletion_open _ _ _ Hdoc).
    set (uri := lsp.textDocument_uri params).
    set (c := lsp.offsetAt document (lsp.position params)).
    assert (exists parses,
               Sms.log (Sms.tokensFor uri document s).2 = Sms.log s ++ parses
               /\ (parses = []
                   \/ exists content, parses = [ParserParse content None]))
      as (parses & Hlog & Hparses).
    { unfold Sms.tokensFor.
      destruct (tokens (getParseStateForUri (Sms.parseStates s) uri)).
      - exists []. rewrite app_nil_r. auto.
      - eexists. split; [reflexivity|]. eauto. }
    destruct (tokensFor_frame s document uri) as (_ & _ & Hdocs).
    destruct (isCursorInToken (Sms.tokensFor uri document s).1 c) eqn:Hin.
    + rewrite (completeAt_inside _ _ _ _ Hin). simpl.
      split; [assumption|].
      exists parses, []. rewrite app_nil_r. auto.
    + rewrite (completeAt_outside _ _ _ _ Hin). simpl.
      split; [assumption|].
      exists parses. eexists. rewrite Hlog, <- app_assoc.
      split; [reflexivity|]. eauto.
  - destruct (handleCompletion_missing _ _ Hdoc) as [what ->]. simpl.
    split; [reflexivity|].
    exists [], []. rewrite app_nil_r. auto.
Qed.

Lemma tokensFor_populates (s : Sms.Server) (document : lsp.TextDocument)
    (uri : string) :
  is_Some (tokens (getParseStateForUri
                     (Sms.parseStates (Sms.tokensFor uri document s).2) uri)).
Proof.
  unfold Sms.tokensFor.
  destruct (tokens (getParseStateForUri (Sms.parseStates s) uri)) eqn:Hc.
  - simpl. rewrite Hc. eauto.
  - simpl. unfold getParseStateForUri, saveParseStateForUri.
    rewrite lookup_insert_eq. simpl. eauto.
Qed.

(** X8. After a completion request for an open document, the store holds
    tokens for that URI, and any further completion request for the URI,
    at any position, calls [parse] no more. *)
Theorem completion_fills_cache_once
    (params : lsp.TextDocumentPositionParams) (s : Sms.Server)
    (document : lsp.TextDocument) :
  Sms.documents s !! lsp.textDocument_uri params = Some document ->
  is_Some (tokens (getParseStateForUri
                     (Sms.parseStates (Sms.handleCompletion params s).2)
                     (lsp.textDocument_uri params)))
  /\ forall params2,
       lsp.textDocument_uri params2 = lsp.textDocument_uri params ->
       count isParse
         (Sms.log (Sms.handleCompletion params2
                     (Sms.handleCompletion params s).2).2)
       = count isParse (Sms.log (Sms.handleCompletion params s).2).
Proof.
  intros Hdoc.
  set (uri := lsp.textDocument_uri params) in *.
  assert (is_Some (tokens (getParseStateForUri
                     (Sms.parseStates (Sms.handleCompletion params s).2) uri)))
    as Hcached.
  { rewrite (handleCompletion_open _ _ _ Hdoc). fold uri.
    match goal with
    | |- context [Sms.completeAt ?d ?c ?t ?s1] =>
        destruct (completeAt_frame s1 d c t) as [-> _]
    end.
    apply tokensFor_populates. }
  split; [assumption|].
  intros params2 Huri.
  set (s1 := (Sms.handleCompletion params s).2) in *.
  assert (Sms.documents s1 !! lsp.textDocument_uri params2 = Some document)
    as Hdoc2.
  { rewrite Huri. unfold s1.
    by rewrite handleCompletion_documents. }
  rewrite (handleCompletion_open _ _ _ Hdoc2), Huri. fold uri.
  destruct Hcached as [toks Htoks].
  rewrite (tokensFor_cached _ _ _ _ Htoks). simpl.
  apply completeAt_frame.
Qed.

Lemma completion_fills_cache_once_witness :
  count isParse
    (Sms.log (Sms.handleCompletion (Sample.at_ "file:///a.sms" 15)
                (Sms.handleCompletion (Sample.at_ "file:///a.sms" 7)
                   Sample.fresh).2).2)
  = count isParse
      (Sms.log (Sms.handleCompletion (Sample.at_ "file:///a.sms" 7)
                  Sample.fresh).2).
Proof.
  exact (proj2 (completion_fills_cache_once
                  (Sample.at_ "file:///a.sms" 7) Sample.fresh Sample.docA
                  eq_refl)
           (Sample.at_ "file:///a.sms" 15) eq_refl).
Defined.

(** X9. When the document has no tokens (cached or just parsed), every
    completion request reaches the content-assist query, at any cursor
    position, and the query is made with the empty prefix. *)
Theorem no_tokens_queries_empty_prefix
    (params : lsp.TextDocumentPositionParams) (s : Sms.Server)
    (document : lsp.TextDocument) :
  Sms.documents s !! lsp.textDocument_uri params = Some document ->
  (Sms.tokensFor (lsp.textDocument_uri params) document s).1 = [] ->
  reachesQuery params s
  /\ last (Sms.log (Sms.handleCompletion params s).2)
     = Some (ParserComputeContentAssist "MappingDoc" []).
Proof.
  intros Hdoc Hnil.
  assert (isCursorInToken
            (Sms.tokensFor (lsp.textDocument_uri params) document s).1
            (lsp.offsetAt document (lsp.position params)) = false) as Hin
    by (by rewrite Hnil).
  split.
  - by apply (reachesQuery_iff _ _ _ Hdoc).
  - rewrite (handleCompletion_open _ _ _ Hdoc).
    rewrite (completeAt_outside _ _ _ _ Hin). simpl.
    rewrite Hnil. apply last_snoc.
Qed.

Lemma no_tokens_queries_empty_prefix_witness :
  reachesQuery (Sample.at_ "file:///e.sms" 3) Sample.fresh
  /\ last (Sms.log (Sms.handleCompletion (Sample.at_ "file:///e.sms" 3)
                      Sample.fresh).2)
     = Some (ParserComputeContentAssist "MappingDoc" []).
Proof.
  exact (no_tokens_queries_empty_prefix
           (Sample.at_ "file:///e.sms" 3) Sample.fresh Sample.docEmpty
           eq_refl eq_refl).
Defined.

Lemma tokenAfter_elem_of (toks : list IToken) (c : Z) (u : IToken) :
  tokenAfterTokenBeforeCursor toks c = Some u -> u ∈ toks.
Proof.
  unfold tokenAfterTokenBeforeCursor, js_index.
  destruct (_ <? 0); [discriminate|].
  intros Hu. apply list_elem_of_lookup. eauto.
Qed.

(** X10. For any token list, the early return is taken only if some
    non-empty token's span contains the cursor offset: when none does, the
    content-assist query is made. *)
Theorem no_spanning_token_reaches_query
    (params : lsp.TextDocumentPositionParams) (s : Sms.Server)
    (document : lsp.TextDocument) :
  Sms.documents s !! lsp.textDocument_uri params = Some document ->
  (forall u,
     u ∈ (Sms.tokensFor (lsp.textDocument_uri params) document s).1 ->
     nonEmpty u ->
     ~ spansCursor (lsp.offsetAt document (lsp.position params)) u) ->
  reachesQuery params s.
Proof.
  intros Hdoc Hnone. apply (reachesQuery_iff _ _ _ Hdoc).
  unfold isCursorInToken.
  destruct (tokenAfterTokenBeforeCursor _ _) as [u|] eqn:Hu; [|reflexivity].
  apply tokenAfter_elem_of in Hu.
  destruct (_ && _) eqn:Htest; [exfalso|reflexivity].
  apply inToken_test in Htest as [Hspan Hne].
  by apply (Hnone u Hu Hne).
Qed.

Lemma no_spanning_token_reaches_query_witness :
  reachesQuery (Sample.at_ "file:///a.sms" 7) Sample.cached.
Proof.
  apply (no_spanning_token_reaches_query
           (Sample.at_ "file:///a.sms" 7) Sample.cached Sample.docA eq_refl).
  change (forall u, u ∈ Sample.toks3 -> nonEmpty u -> ~ spansCursor 7 u).
  intros u Hu _. unfold Sample.toks3 in Hu.
  rewrite !elem_of_cons, elem_of_nil in Hu.
  destruct Hu as [->|[->|[->|[]]]]; unfold spansCursor; simpl; lia.
Defined.

(** ** The content-change handlers, whatever the text *)

(** X11. Every content change, empty text or not, makes exactly one call of
    [sendDiagnostics], as the last outgoing call and for the document's URI;
    the handlers call the parser not at all, and leave the parse state
    store (Sms) and the mode (Trig) as they were. *)
Theorem content_change_sends_exactly_once
    (document : lsp.TextDocument) (parseResults : ParseResults)
    (sms : Sms.Server) (trig : Trig.Server) :
  (count isSendDiagnostics
     (Sms.log (Sms.onContentChange document parseResults sms))
   = S (count isSendDiagnostics (Sms.log sms))
   /\ count isParse (Sms.log (Sms.onContentChange document parseResults sms))
      = count isParse (Sms.log sms)
   /\ Sms.parseStates (Sms.onContentChange document parseResults sms)
      = Sms.parseStates sms
   /\ exists ds,
        last (Sms.log (Sms.onContentChange document parseResults sms))
        = Some (ConnectionSendDiagnostics (lsp.uri document) ds))
  /\ (count isSendDiagnostics
        (Trig.log (Trig.onContentChange document parseResults trig))
      = S (count isSendDiagnostics (Trig.log trig))
      /\ count isParse
           (Trig.log (Trig.onContentChange document parseResults trig))
         = count isParse (Trig.log trig)
      /\ Trig.mode (Trig.onContentChange document parseResults trig)
         = Trig.mode trig
      /\ exists ds,
           last (Trig.log (Trig.onContentChange document parseResults trig))
           = Some (ConnectionSendDiagnostics (lsp.uri document) ds)).
Proof.
  unfold Sms.onContentChange, Trig.onContentChange.
  destruct (String.length (lsp.getText document) =? 0)%nat; simpl;
    rewrite !count_snoc; simpl.
  - split; (split; [lia|]; split; [lia|]; split; [reflexivity|]);
      eexists; apply last_snoc.
  - split; (split; [lia|]; split; [lia|]; split; [reflexivity|]);
      eexists; apply last_snoc.
Qed.

(** X12. The two servers' content-change handlers do the same thing: with
    the same diagnostics passes they add the same calls to their logs, for
    every document and parse result. *)
Theorem content_change_handlers_agree
    (document : lsp.TextDocument) (parseResults : ParseResults)
    (sms : Sms.Server) (trig : Trig.Server) :
  Sms.translator sms = Trig.translator trig ->
  exists new,
    Sms.log (Sms.onContentChange document parseResults sms)
    = Sms.log sms ++ new
    /\ Trig.log (Trig.onContentChange document parseResults trig)
       = Trig.log trig ++ new.
Proof.
  intros Htr. unfold Sms.onContentChange, Trig.onContentChange.
  destruct (String.length (lsp.getText document) =? 0)%nat; simpl.
  - eexists. split; reflexivity.
  - rewrite Htr, <- !app_assoc. simpl. eexists. split; reflexivity.
Qed.

Lemma content_change_handlers_agree_witness :
  exists new,
    Sms.log (Sms.onContentChange Sample.docA Sample.someResults Sample.fresh)
    = Sms.log Sample.fresh ++ new
    /\ Trig.log (Trig.onContentChange Sample.docA Sample.someResults
                   Sample.trig)
       = Trig.log Sample.trig ++ new.
Proof.
  exact (content_change_handlers_agree
           Sample.docA Sample.someResults Sample.fresh Sample.trig eq_refl).
Defined.

(** ** The dialect mode over the life of a server *)

Lemma onInitialization_state (params : lsp.InitializeParams) (s : Trig.Server) :
  (Trig.onInitialization params s).2
  = match Trig.acceptedMode params with
    | Some m => Trig.setMode m s
    | None => s
    end.
Proof. reflexivity. Qed.

Lemma trigStep_keeps_valid (st : TrigStep) (s : Trig.Server)
    (P : Event -> Prop) :
  (forall content m, validMode m -> P (ParserParse content (Some m))) ->
  (forall e, isParse e = false -> P e) ->
  validMode (Trig.mode s) ->
  Forall P (Trig.log s) ->
  validMode (Trig.mode (trigStep st s)) /\ Forall P (Trig.log (trigStep st s)).
Proof.
  intros Hparse Hother Hmode Hlog.
  destruct st as [params|r]; unfold trigStep.
  - rewrite onInitialization_state.
    destruct (Trig.acceptedMode params) as [m|] eqn:Hacc; [|by split].
    apply acceptedMode_iff in Hacc as (_ & _ & Hvalid).
    split; [|assumption].
    unfold validMode. simpl. tauto.
  - destruct (serve_log r s) as (new & -> & Hnew & ->).
    split; [assumption|].
    apply Forall_app. split; [assumption|].
    eapply Forall_impl; [exact Hnew|]. simpl. intros e He.
    destruct (isParse e) eqn:Hp; [|by apply Hother].
    destruct (He eq_refl) as [document ->]. by apply Hparse.
Qed.

(** X13. Over any sequence of initialisations and requests, starting from a
    new server, the mode is always ['standard'] or ['stardog'], and every
    call of [parse] the server has made carries one of these two modes. *)
Theorem parser_only_sees_valid_modes
    (p : Trig.TrigParser) (t : DiagnosticsTranslator) (k : JsValue)
    (steps : list TrigStep) :
  validMode (Trig.mode (trigRun steps (Trig.create p t k)))
  /\ forall e,
       e ∈ Trig.log (trigRun steps (Trig.create p t k)) ->
       isParse e = true ->
       exists content m, e = ParserParse content (Some m) /\ validMode m.
Proof.
  set (P := fun e : Event =>
              isParse e = true ->
              exists content m, e = ParserParse content (Some m) /\ validMode m).
  assert (forall s, validMode (Trig.mode s) -> Forall P (Trig.log s) ->
            validMode (Trig.mode (trigRun steps s))
            /\ Forall P (Trig.log (trigRun steps s))) as Hrun.
  { unfold trigRun. induction steps as [|st steps IH]; intros s Hmode Hlog.
    - by split.
    - simpl.
      destruct (trigStep_keeps_valid st s P) as [Hmode' Hlog'];
        try assumption.
      + intros content m Hvalid _. eauto.
      + intros e He Hp. congruence.
      + by apply IH. }
  destruct (Hrun (Trig.create p t k)) as [Hmode Hlog].
  - by left.
  - constructor.
  - split; [assumption|].
    rewrite Forall_forall in Hlog. exact Hlog.
Qed.

(** X14. When [initializationOptions] is not an object (a string, even
    ['stardog'] itself, a number, a boolean, [null] or [undefined]),
    [onInitialization] leaves the server as it was. *)
Theorem non_object_options_ignored
    (params : lsp.InitializeParams) (s : Trig.Server) :
  (forall props, lsp.initializationOptions params <> JsObject props) ->
  (Trig.onInitialization params s).2 = s.
Proof.
  intros Hprim. rewrite onInitialization_state.
  assert (Trig.acceptedMode params = None) as ->; [|reflexivity].
  apply acceptedMode_none. intros [_ Hmode].
  destruct (lsp.initializationOptions params) as [| | | | |props];
    simpl in Hmode; try (destruct Hmode; discriminate).
  by apply (Hprim props).
Qed.

Lemma non_object_options_ignored_witness :
  (Trig.onInitialization {| lsp.initializationOptions := JsString "stardog" |}
     Sample.trig).2
  = Sample.trig.
Proof.
  apply (non_object_options_ignored
           {| lsp.initializationOptions := JsString "stardog" |} Sample.trig).
  intros props. discriminate.
Defined.

(** ** The cache does not change the answer *)

Lemma completeAt_answer (s : Sms.Server) (document : lsp.TextDocument)
    (c : Z) (toks : list IToken) :
  (Sms.completeAt document c toks s).1
  = if isCursorInToken toks c then Returned None
    else if existsb Sms.isMapping
              (Sms.computeContentAssist (Sms.parser s) "MappingDoc"
                 (assistPrefix toks c))
         then Returned (Some [Sms.snippetItem document c
                                (Sms.basicSMS2Mapping s)])
         else Returned None.
Proof.
  unfold Sms.completeAt.
  destruct (isCursorInToken toks c); [reflexivity|].
  simpl. by destruct (existsb _ _).
Qed.

(** X15. A request served without cached tokens gives the same answer, and
    leaves the same parse state store, as the same request on a server whose
    store already holds [{cst, tokens}] of the parse of the document's
    text. *)
Theorem cold_and_warm_cache_agree
    (params : lsp.TextDocumentPositionParams) (s : Sms.Server)
    (document : lsp.TextDocument) :
  let uri := lsp.textDocument_uri params in
  let out := Sms.parse (Sms.parser s) (lsp.getText document) in
  let warm :=
    Sms.setParseStates
      (saveParseStateForUri (Sms.parseStates s) uri
         {| cst := Some (out_cst out); tokens := Some (out_input out) |})
      s in
  Sms.documents s !! uri = Some document ->
  tokens (getParseStateForUri (Sms.parseStates s) uri) = None ->
  (Sms.handleCompletion params s).1 = (Sms.handleCompletion params warm).1
  /\ Sms.parseStates (Sms.handleCompletion params s).2
     = Sms.parseStates (Sms.handleCompletion params warm).2.
Proof.
  intros uri out warm Hdoc Hnone.
  assert (Sms.documents warm !! lsp.textDocument_uri params = Some document)
    as Hdoc' by exact Hdoc.
  assert (tokens (getParseStateForUri (Sms.parseStates warm) uri)
          = Some (out_input out)) as Hwarm.
  { unfold warm, getParseStateForUri, saveParseStateForUri. simpl.
    by rewrite lookup_insert_eq. }
  rewrite (handleCompletion_open _ _ _ Hdoc).
  rewrite (handleCompletion_open _ _ _ Hdoc'). fold uri.
  rewrite (tokensFor_uncached _ _ _ Hnone).
  rewrite (tokensFor_cached _ _ _ _ Hwarm). simpl. fold out.
  split.
  - by rewrite !completeAt_answer.
  - match goal with
    | |- Sms.parseStates (Sms.completeAt ?d ?c ?t ?s1).2
         = Sms.parseStates (Sms.completeAt ?d ?c ?t ?s2).2 =>
        rewrite (proj1 (completeAt_frame s1 d c t));
        rewrite (proj1 (completeAt_frame s2 d c t))
    end.
    reflexivity.
Qed.

Lemma cold_and_warm_cache_agree_witness :
  (Sms.handleCompletion (Sample.at_ "file:///a.sms" 7) Sample.fresh).1
  = (Sms.handleCompletion (Sample.at_ "file:///a.sms" 7) Sample.cached).1.
Proof.
  exact (proj1 (cold_and_warm_cache_agree
                  (Sample.at_ "file:///a.sms" 7) Sample.fresh Sample.docA
                  eq_refl eq_refl)).
Defined.
